(** * udp_test_remote: a shallow embedding of [udp_test_remote.py]

    The script sends one text command over UDP, waits for one reply,
    prints it and optionally appends it to a log file; it can repeat the
    exchange in a loop and can first move into the network namespace of
    another process.

    The embedding is a state-and-exception monad over a [world] that
    records every observable effect in order.  What the operating system
    and the network answer is read from an [env]; what the Python library
    computes ([json.loads], [int], [str.strip]) is a parameter of the
    development. *)

From Stdlib Require Import ZArith List Bool Lia.
From Stdlib.Strings Require Import String Ascii Byte.
Import ListNotations.
Local Open Scope Z_scope.

(** ** Text and bytes

    A Python [bytes] value is a list of bytes.  A Python [str] is
    represented by its UTF-8 encoding, so [str.encode()] only changes the
    type and [bytes.decode()] checks that the bytes are well-formed UTF-8
    (the strict error handler of CPython). *)

Definition bytes := list byte.
Definition text := string.
Bind Scope string_scope with text.

Definition between (lo hi : N) (b : byte) : bool :=
  ((lo <=? Byte.to_N b) && (Byte.to_N b <=? hi))%N.

Definition continuation (b : byte) : bool := between 0x80 0xBF b.

(** Well-formed UTF-8 byte sequences: no overlong forms, no surrogates,
    nothing above U+10FFFF. *)
Fixpoint utf8_valid (bs : bytes) : bool :=
  match bs with
  | [] => true
  | b0 :: r0 =>
    if between 0x00 0x7F b0 then utf8_valid r0
    else if between 0xC2 0xDF b0 then
      match r0 with
      | b1 :: r1 => continuation b1 && utf8_valid r1
      | _ => false
      end
    else if between 0xE0 0xEF b0 then
      match r0 with
      | b1 :: b2 :: r2 =>
        (if between 0xE0 0xE0 b0 then between 0xA0 0xBF b1
         else if between 0xED 0xED b0 then between 0x80 0x9F b1
         else continuation b1)
        && continuation b2 && utf8_valid r2
      | _ => false
      end
    else if between 0xF0 0xF4 b0 then
      match r0 with
      | b1 :: b2 :: b3 :: r3 =>
        (if between 0xF0 0xF0 b0 then between 0x90 0xBF b1
         else if between 0xF4 0xF4 b0 then between 0x80 0x8F b1
         else continuation b1)
        && continuation b2 && continuation b3 && utf8_valid r3
      | _ => false
      end
    else false
  end.

(** [data.decode()]: [None] stands for [UnicodeDecodeError]. *)
Definition decode (data : bytes) : option text :=
  if utf8_valid data then Some (string_of_list_byte data) else None.

(** The first [n] bytes of [data]: what a receive buffer of [n] bytes
    keeps of a datagram. *)
Definition take (n : Z) (data : bytes) : bytes := firstn (Z.to_nat n) data.

(** [command.encode()] *)
Definition encode (s : text) : bytes := list_byte_of_string s.

(** ** Configuration: the [argparse] namespace *)

Inductive logformat := Json | Csv.
Inductive log_on := All | Success | Fail.
Inductive timestamp_format := Iso | Unix.

Definition log_on_eqb (a b : log_on) : bool :=
  match a, b with
  | All, All | Success, Success | Fail, Fail => true
  | _, _ => false
  end.

Record args := {
  port : Z;
  query : text;
  loop : bool;
  repeat : option Z;
  ns_pid : option Z;
  compose_name : option text;
  remote_ip : text;
  remote_port : Z;
  logfile : option text;
  logformat_ : logformat;
  log_on_ : log_on;
  timestamp_format_ : timestamp_format
}.

(** The values [parse_args] yields when no option is given. *)
Definition default_args : args := {|
  port := 44440;
  query := "none"%string;
  loop := false;
  repeat := None;
  ns_pid := None;
  compose_name := None;
  remote_ip := "127.0.0.1"%string;
  remote_port := 44444;
  logfile := None;
  logformat_ := Json;
  log_on_ := All;
  timestamp_format_ := Iso
|}.

(** Python truth values of the optional arguments: [None], [0] and the
    empty string are false.  [given_int o] is the value of [o] when
    [if o:] takes its first branch. *)
Definition given_int (o : option Z) : option Z :=
  match o with
  | Some n => if n =? 0 then None else Some n
  | None => None
  end.

Definition given_str (o : option text) : option text :=
  match o with
  | Some s => if String.eqb s EmptyString then None else Some s
  | None => None
  end.

Definition set_ns_pid (a : args) (p : Z) : args := {|
  port := port a;
  query := query a;
  loop := loop a;
  repeat := repeat a;
  ns_pid := Some p;
  compose_name := compose_name a;
  remote_ip := remote_ip a;
  remote_port := remote_port a;
  logfile := logfile a;
  logformat_ := logformat_ a;
  log_on_ := log_on_ a;
  timestamp_format_ := timestamp_format_ a
|}.

(** ** Exceptions *)

Inductive exn :=
| SystemExit (code : Z)
| KeyboardInterrupt
| OSError (errno : Z)
| SocketTimeout
| CalledProcessError (returncode : Z) (stderr : text)
| ValueError
| UnicodeDecodeError
| JSONDecodeError.

(** [except Exception] catches everything but [SystemExit] and
    [KeyboardInterrupt]. *)
Definition is_Exception (e : exn) : bool :=
  match e with
  | SystemExit _ | KeyboardInterrupt => false
  | _ => true
  end.

(** ** What the surroundings answer *)

(** What the network holds for a socket waiting in [recvfrom]: a datagram
    after [delay] milliseconds, nothing at all, or an interrupt signal of
    the user after [delay] milliseconds. *)
Inductive incoming :=
| Datagram (delay : Z) (data : bytes) (ip : text) (rport : Z)
| Silence
| Sigint (delay : Z).

(** Result of [subprocess.run(["docker", "inspect", ...], check=True)]. *)
Inductive docker_result :=
| Completed (stdout : text)
| Failed (returncode : Z) (stderr : text)
| NotStarted (errno : Z).

(** Sockets are numbered in the order of their creation; the answers to
    the operations on a socket are looked up under its number, the answer
    to a [time.sleep] under the number of sleeps before it. *)
Record env := {
  geteuid : Z;
  open_netns : Z -> Z + Z;            (* pid -> errno + fd *)
  libc_setns : Z -> Z -> Z * Z;       (* fd, nstype -> return value, errno *)
  docker_inspect : text -> docker_result;
  bind_errno : nat -> option Z;
  send_errno : nat -> option Z;
  arriving : nat -> incoming;
  sleep_sigint : nat -> bool
}.

(** ** The monad: state, exceptions and non-termination *)

Inductive result (A : Type) :=
| Ret (a : A)          (* normal completion *)
| Raise (e : exn)      (* a Python exception is propagating *)
| Blocked              (* a system call that never returns *)
| OutOfFuel.           (* [while True] was cut off by the model *)

Arguments Ret {A} a.
Arguments Raise {A} e.
Arguments Blocked {A}.
Arguments OutOfFuel {A}.

(** ** Concrete surroundings for the examples

    The theorems below hold for every [json.loads], [str.strip] and
    [int]; the examples run the script with the following stand-ins,
    which agree with Python on the texts the examples use. *)

(** Documents that consist of one JSON literal name. *)
Inductive literal := JTrue | JFalse | JNull.

Definition loads_literal (t : text) : option literal :=
  if String.eqb t "true" then Some JTrue
  else if String.eqb t "false" then Some JFalse
  else if String.eqb t "null" then Some JNull
  else None.

Definition is_space (c : ascii) : bool :=
  let n := N_of_ascii c in
  (((9 <=? n) && (n <=? 13)) || (n =? 32))%N.

Fixpoint lstrip (t : text) : text :=
  match t with
  | String c t' => if is_space c then lstrip t' else t
  | EmptyString => EmptyString
  end.

Fixpoint rstrip (t : text) : text :=
  match t with
  | String c t' =>
    match rstrip t' with
    | EmptyString => if is_space c then EmptyString else String c EmptyString
    | r => String c r
    end
  | EmptyString => EmptyString
  end.

Definition strip_ascii (t : text) : text := rstrip (lstrip t).

Fixpoint digits (acc : Z) (t : text) : option Z :=
  match t with
  | EmptyString => Some acc
  | String c t' =>
    let n := N_of_ascii c in
    if ((48 <=? n) && (n <=? 57))%N
    then digits (10 * acc + Z.of_N (n - 48)) t'
    else None
  end.

(** Decimal numerals with an optional sign. *)
Definition int_decimal (t : text) : option Z :=
  match t with
  | EmptyString => None
  | String "-" EmptyString | String "+" EmptyString => None
  | String "-" t' => option_map Z.opp (digits 0 t')
  | String "+" t' => digits 0 t'
  | _ => digits 0 t
  end.

(** An unprivileged user on a host where [docker inspect] prints
    [stdout]; every socket binds and sends and then meets [inc]. *)
Definition plain_env (euid : Z) (stdout : string) (inc : incoming) : env := {|
  geteuid := euid;
  open_netns := fun pid => inr 3;
  libc_setns := fun _ _ => (0, 0);
  docker_inspect := fun _ => Completed stdout;
  bind_errno := fun _ => None;
  send_errno := fun _ => None;
  arriving := fun _ => inc;
  sleep_sigint := fun _ => false
|}.

(** The same, with the local port taken by another process
    ([EADDRINUSE]). *)
Definition port_in_use : env := {|
  geteuid := 1000;
  open_netns := fun pid => inr 3;
  libc_setns := fun _ _ => (0, 0);
  docker_inspect := fun _ => Completed "4242"%string;
  bind_errno := fun _ => Some 98;
  send_errno := fun _ => None;
  arriving := fun _ => Silence;
  sleep_sigint := fun _ => false
|}.

(** Surroundings given piece by piece: the effective user, what opening
    the namespace handle and [setns] answer, what the container runtime
    answers, and what bind, the network and the sleep hold for each
    socket and each round.  Sending always succeeds. *)
Definition scripted (euid : Z) (ns : Z + Z) (rc : Z * Z) (docker : docker_result)
    (bind : nat -> option Z) (inc : nat -> incoming) (sig : nat -> bool) : env := {|
  geteuid := euid;
  open_netns := fun _ => ns;
  libc_setns := fun _ _ => rc;
  docker_inspect := fun _ => docker;
  bind_errno := bind;
  send_errno := fun _ => None;
  arriving := inc;
  sleep_sigint := sig
|}.

(** Root on a quiet host: the handle opens as descriptor 3, [setns]
    answers [rc]. *)
Definition as_root (rc : Z * Z) : env :=
  scripted 0 (inr 3) rc (Completed "4242") (fun _ => None) (fun _ => Silence)
           (fun _ => false).

(** An unprivileged user whose container runtime answers [docker]. *)
Definition with_docker (docker : docker_result) : env :=
  scripted 1000 (inr 3) (0, 0) docker (fun _ => None) (fun _ => Silence)
           (fun _ => false).

(** No listener; socket 1 meets [inc], or cannot bind when [bind] is an
    error number. *)
Definition second_round (bind : option Z) (inc : incoming) : env :=
  scripted 1000 (inr 3) (0, 0) (Completed "4242")
           (fun s => if Nat.eqb s 1 then bind else None)
           (fun s => if Nat.eqb s 1 then inc else Silence)
           (fun _ => false).

(** A listener that answers [reply] after 10 milliseconds. *)
Definition answering (reply : text) : env :=
  plain_env 1000 "4242" (Datagram 10 (list_byte_of_string reply) "127.0.0.1"%string 44444).

(** A listener whose answer is the single byte [0xFF]. *)
Definition answering_ff : env :=
  plain_env 1000 "4242" (Datagram 10 [xff] "127.0.0.1"%string 44444).

(** No listener at all. *)
Definition nobody : env := plain_env 1000 "4242" Silence.

(** No listener, and the user presses CTRL+C during the sleep of round
    [k]. *)
Definition nobody_until (k : nat) : env := {|
  geteuid := 1000;
  open_netns := fun pid => inr 3;
  libc_setns := fun _ _ => (0, 0);
  docker_inspect := fun _ => Completed "4242"%string;
  bind_errno := fun _ => None;
  send_errno := fun _ => None;
  arriving := fun _ => Silence;
  sleep_sigint := fun j => Nat.eqb j k
|}.

Definition with_log (a : args) (path : text) (p : log_on) : args := {|
  port := port a;
  query := query a;
  loop := loop a;
  repeat := repeat a;
  ns_pid := ns_pid a;
  compose_name := compose_name a;
  remote_ip := remote_ip a;
  remote_port := remote_port a;
  logfile := Some path;
  logformat_ := logformat_ a;
  log_on_ := p;
  timestamp_format_ := timestamp_format_ a
|}.

Definition with_loop (a : args) (n : option Z) : args := {|
  port := port a;
  query := query a;
  loop := true;
  repeat := n;
  ns_pid := ns_pid a;
  compose_name := compose_name a;
  remote_ip := remote_ip a;
  remote_port := remote_port a;
  logfile := logfile a;
  logformat_ := logformat_ a;
  log_on_ := log_on_ a;
  timestamp_format_ := timestamp_format_ a
|}.

Definition with_netns (a : args) (pid : option Z) (name : option text) : args := {|
  port := port a;
  query := query a;
  loop := loop a;
  repeat := repeat a;
  ns_pid := pid;
  compose_name := name;
  remote_ip := remote_ip a;
  remote_port := remote_port a;
  logfile := logfile a;
  logformat_ := logformat_ a;
  log_on_ := log_on_ a;
  timestamp_format_ := timestamp_format_ a
|}.

Section Program.

(** The Python library: the type of decoded JSON documents and
    [json.loads] ([None] is [json.JSONDecodeError]), [str.strip] and
    [int] on a string ([None] is [ValueError]). *)
Variable J : Type.
Variable json_loads : text -> option J.
Variable str_strip : text -> text.
Variable int_of_str : text -> option Z.

(** The surroundings of one run. *)
Variable E : env.

(** *** Observable effects *)

(** What is logged as the response: the decoded document or a text. *)
Inductive response :=
| RespJson (j : J)
| RespText (t : text).

Inductive timestamp :=
| TsUnix (seconds : Z)      (* [int(now.timestamp())] *)
| TsIso (now_ms : Z).       (* [now.isoformat()] *)

(** One line of the log file, before it is rendered:
    ["{timestamp}","{query}","{response}"] or
    [json.dumps({"timestamp": .., "query": .., "response": ..})]. *)
Inductive log_line :=
| CsvLine (ts : timestamp) (q : text) (r : response)
| JsonLine (ts : timestamp) (q : text) (r : response).

(** The lines the script prints, with the values they are formatted
    from.  [MsgRequest i n] is [f"▶ Request {i}/{n}"]. *)
Inductive message :=
| MsgMustBeRoot
| MsgEntered (pid : Z)
| MsgNsFailed (e : exn)
| MsgResolved (name : text) (pid : Z)
| MsgCouldNotResolve (name : text) (stderr : text)
| MsgAnswerFrom (ip : text) (rport : Z)
| MsgPretty (j : J)
| MsgNotJson
| MsgRaw (t : text)
| MsgTimeout
| MsgLoopingTimes (n : Z)
| MsgRequest (i n : Z)
| MsgLoopingUntil
| MsgLoopInterrupted
| MsgSending (q : text) (ip : text) (rport : Z) (lport : Z).

Inductive event :=
| EPrint (m : message)
| ESocket (s : nat)
| EBind (s : nat) (lport : Z)
| ESetTimeout (s : nat) (ms : Z)
| ESendTo (s : nat) (payload : bytes) (ip : text) (rport : Z)
| ERecvFrom (s : nat) (data : bytes)
| EClose (s : nat)
| ESleep (seconds : Z)
| EAppend (path : text) (line : log_line)
| ERunDocker (name : text)
| EOpenNetns (pid : Z) (fd : Z)
| ESetns (fd : Z)
| ECloseFd (fd : Z)
| ETraceback (e : exn).

(** An open socket object: its number and the timeout set on it
    ([None]: blocking mode). *)
Record socket := {
  sock_id : nat;
  sock_timeout : option Z
}.

Record world := {
  clock : Z;                  (* milliseconds since the epoch *)
  created : nat;              (* sockets created so far *)
  slept : nat;                (* calls of [time.sleep] so far *)
  open_sockets : list socket;
  trace : list event          (* oldest first *)
}.

Definition M (A : Type) : Type := world -> result A * world.

Definition ret {A} (a : A) : M A := fun w => (Ret a, w).

Definition raise {A} (e : exn) : M A := fun w => (Raise e, w).

Definition bind {A B} (m : M A) (k : A -> M B) : M B :=
  fun w =>
    match m w with
    | (Ret a, w') => k a w'
    | (Raise e, w') => (Raise e, w')
    | (Blocked, w') => (Blocked, w')
    | (OutOfFuel, w') => (OutOfFuel, w')
    end.

Notation "x <- m ;; k" := (bind m (fun x => k))
  (at level 61, m at next level, right associativity).
Notation "m ;; k" := (bind m (fun _ => k))
  (at level 61, right associativity).

(** [try: m except ...: handler]: [handler e] is [None] when no
    [except] clause matches [e]. *)
Definition try_except {A} (m : M A) (handler : exn -> option (M A)) : M A :=
  fun w =>
    match m w with
    | (Raise e, w') =>
      match handler e with
      | Some h => h w'
      | None => (Raise e, w')
      end
    | r => r
    end.

(** [try: m finally: fin]: [fin] runs on normal completion and on an
    exception alike; an exception of [fin] replaces the pending one. *)
Definition try_finally {A} (m : M A) (fin : M unit) : M A :=
  fun w =>
    match m w with
    | (Ret a, w') =>
      match fin w' with
      | (Ret _, w'') => (Ret a, w'')
      | (Raise e, w'') => (Raise e, w'')
      | (Blocked, w'') => (Blocked, w'')
      | (OutOfFuel, w'') => (OutOfFuel, w'')
      end
    | (Raise e, w') =>
      match fin w' with
      | (Ret _, w'') => (Raise e, w'')
      | (Raise e', w'') => (Raise e', w'')
      | (Blocked, w'') => (Blocked, w'')
      | (OutOfFuel, w'') => (OutOfFuel, w'')
      end
    | r => r
    end.

Definition when (c : bool) (m : M unit) : M unit :=
  if c then m else ret tt.

(** *** Primitive operations *)

Definition emit (e : event) (w : world) : world := {|
  clock := clock w;
  created := created w;
  slept := slept w;
  open_sockets := open_sockets w;
  trace := trace w ++ [e]
|}.

Definition advance (ms : Z) (w : world) : world := {|
  clock := clock w + ms;
  created := created w;
  slept := slept w;
  open_sockets := open_sockets w;
  trace := trace w
|}.

Definition with_sockets (f : list socket -> list socket) (w : world) : world := {|
  clock := clock w;
  created := created w;
  slept := slept w;
  open_sockets := f (open_sockets w);
  trace := trace w
|}.

Definition print (m : message) : M unit := fun w => (Ret tt, emit (EPrint m) w).

(** [socket.socket(AF_INET, SOCK_DGRAM)] *)
Definition socket_new : M nat :=
  fun w =>
    let s := created w in
    (Ret s,
     {| clock := clock w;
        created := S s;
        slept := slept w;
        open_sockets := {| sock_id := s; sock_timeout := None |} :: open_sockets w;
        trace := trace w ++ [ESocket s] |}).

(** [sock.bind(("", lport))] *)
Definition sock_bind (s : nat) (lport : Z) : M unit :=
  fun w =>
    match bind_errno E s with
    | Some errno => (Raise (OSError errno), w)
    | None => (Ret tt, emit (EBind s lport) w)
    end.

Definition set_timeout (s : nat) (ms : Z) (l : list socket) : list socket :=
  map (fun k => if Nat.eqb (sock_id k) s
                then {| sock_id := s; sock_timeout := Some ms |}
                else k) l.

(** [sock.settimeout(t)], the time in milliseconds *)
Definition sock_settimeout (s : nat) (ms : Z) : M unit :=
  fun w => (Ret tt, emit (ESetTimeout s ms) (with_sockets (set_timeout s ms) w)).

(** [sock.sendto(payload, (ip, rport))] *)
Definition sock_sendto (s : nat) (payload : bytes) (ip : text) (rport : Z) : M unit :=
  fun w =>
    match send_errno E s with
    | Some errno => (Raise (OSError errno), w)
    | None => (Ret tt, emit (ESendTo s payload ip rport) w)
    end.

Fixpoint timeout_of (s : nat) (l : list socket) : option (option Z) :=
  match l with
  | [] => None
  | k :: l' => if Nat.eqb (sock_id k) s then Some (sock_timeout k) else timeout_of s l'
  end.

(** [sock.recvfrom(bufsize)]: at most [bufsize] bytes of one datagram and
    the address of its sender.  With no timeout set the call waits for as
    long as it takes. *)
Definition sock_recvfrom (s : nat) (bufsize : Z) : M (bytes * (text * Z)) :=
  fun w =>
    match timeout_of s (open_sockets w) with
    | None => (Raise (OSError 9), w)
    | Some tmo =>
      match arriving E s, tmo with
      | Datagram d data ip rport, Some t =>
        if d <? t
        then (Ret (take bufsize data, (ip, rport)),
              emit (ERecvFrom s (take bufsize data)) (advance d w))
        else (Raise SocketTimeout, advance t w)
      | Datagram d data ip rport, None =>
        (Ret (take bufsize data, (ip, rport)),
         emit (ERecvFrom s (take bufsize data)) (advance d w))
      | Silence, Some t => (Raise SocketTimeout, advance t w)
      | Silence, None => (Blocked, w)
      | Sigint d, Some t =>
        if d <? t
        then (Raise KeyboardInterrupt, advance d w)
        else (Raise SocketTimeout, advance t w)
      | Sigint d, None => (Raise KeyboardInterrupt, advance d w)
      end
    end.

Definition drop_socket (s : nat) (l : list socket) : list socket :=
  filter (fun k => negb (Nat.eqb (sock_id k) s)) l.

(** [sock.close()] *)
Definition sock_close (s : nat) : M unit :=
  fun w => (Ret tt, emit (EClose s) (with_sockets (drop_socket s) w)).

(** [time.sleep(seconds)] *)
Definition sleep (seconds : Z) : M unit :=
  fun w =>
    let w' := {| clock := clock w;
                 created := created w;
                 slept := S (slept w);
                 open_sockets := open_sockets w;
                 trace := trace w ++ [ESleep seconds] |} in
    if sleep_sigint E (slept w)
    then (Raise KeyboardInterrupt, w')
    else (Ret tt, advance (seconds * 1000) w').

(** [datetime.now()] *)
Definition now : M Z := fun w => (Ret (clock w), w).

(** [with open(path, "a") as f: f.write(line)] *)
Definition append_line (path : text) (line : log_line) : M unit :=
  fun w => (Ret tt, emit (EAppend path line) w).

Definition os_geteuid : M Z := ret (geteuid E).

(** [os.open(f"/proc/{pid}/ns/net", os.O_RDONLY)] *)
Definition os_open_netns (pid : Z) : M Z :=
  fun w =>
    match open_netns E pid with
    | inl errno => (Raise (OSError errno), w)
    | inr fd => (Ret fd, emit (EOpenNetns pid fd) w)
    end.

Definition os_close (fd : Z) : M unit := fun w => (Ret tt, emit (ECloseFd fd) w).

(** [subprocess.run(["docker", "inspect", "-f", "{{.State.Pid}}", name],
    capture_output=True, text=True, check=True)], the standard output *)
Definition run_docker_inspect (name : text) : M text :=
  fun w =>
    match docker_inspect E name with
    | Completed out => (Ret out, emit (ERunDocker name) w)
    | Failed rc err => (Raise (CalledProcessError rc err), emit (ERunDocker name) w)
    | NotStarted errno => (Raise (OSError errno), w)
    end.

(** [data.decode()], [json.loads(..)] and [int(..)] as steps that raise *)
Definition py_decode (data : bytes) : M text :=
  match decode data with
  | Some t => ret t
  | None => raise UnicodeDecodeError
  end.

Definition py_json_loads (t : text) : M J :=
  match json_loads t with
  | Some j => ret j
  | None => raise JSONDecodeError
  end.

Definition py_int (t : text) : M Z :=
  match int_of_str t with
  | Some n => ret n
  | None => raise ValueError
  end.

(** [LIBC.setns(fd, nstype)] with [ctypes.get_errno()] *)
Definition LIBC_setns (fd nstype : Z) : M (Z * Z) :=
  fun w =>
    let r := libc_setns E fd nstype in
    (Ret r, if fst r =? 0 then emit (ESetns fd) w else w).

(** *** The functions of the script *)

Definition setns (fd nstype : Z) : M unit :=
  r <- LIBC_setns fd nstype ;;
  if negb (fst r =? 0) then raise (OSError (snd r)) else ret tt.

Definition sys_exit {A} (code : Z) : M A := raise (SystemExit code).

Definition enter_netns (pid : Z) : M unit :=
  euid <- os_geteuid ;;
  when (negb (euid =? 0))
       (print MsgMustBeRoot ;; sys_exit 1) ;;
  try_except
    (fd <- os_open_netns pid ;;
     setns fd 0 ;;
     os_close fd ;;
     print (MsgEntered pid))
    (fun e =>
       if is_Exception e
       then Some (print (MsgNsFailed e) ;; sys_exit 1)
       else None).

Definition get_pid_from_compose_name (compose_name : text) : M Z :=
  try_except
    (stdout <- run_docker_inspect compose_name ;;
     pid <- py_int (str_strip stdout) ;;
     print (MsgResolved compose_name pid) ;;
     ret pid)
    (fun e =>
       match e with
       | CalledProcessError _ stderr =>
         Some (print (MsgCouldNotResolve compose_name stderr) ;; sys_exit 1)
       | _ => None
       end).

Definition get_timestamp (fmt : timestamp_format) : M timestamp :=
  t <- now ;;
  match fmt with
  | Unix => ret (TsUnix (Z.quot t 1000))
  | Iso => ret (TsIso t)
  end.

Definition log_entry (logfile : text) (fmt : logformat) (query : text)
    (r : response) (tsfmt : timestamp_format) : M unit :=
  ts <- get_timestamp tsfmt ;;
  match fmt with
  | Csv => append_line logfile (CsvLine ts query r)
  | Json => append_line logfile (JsonLine ts query r)
  end.

(** [if config.logfile and config.log_on in policies: log_entry(..)] *)
Definition log_if (config : args) (policies : list log_on) (command : text)
    (r : response) : M unit :=
  match given_str (logfile config) with
  | Some path =>
    when (existsb (log_on_eqb (log_on_ config)) policies)
         (log_entry path (logformat_ config) command r (timestamp_format_ config))
  | None => ret tt
  end.

(** The classification of an exchange.  The Python function returns
    [None]; the embedding returns the branch it went through. *)
Inductive outcome :=
| Structured (j : J)
| RawText (t : text)
| Timeout.

Definition send_and_receive (listen_port : Z) (command : text)
    (remote_ip : text) (remote_port : Z) (config : args) : M outcome :=
  sock <- socket_new ;;
  sock_bind sock listen_port ;;
  sock_settimeout sock 2000 ;;
  try_finally
    (try_except
       (sock_sendto sock (encode command) remote_ip remote_port ;;
        r <- sock_recvfrom sock 4096 ;;
        print (MsgAnswerFrom (fst (snd r)) (snd (snd r))) ;;
        try_except
          (t <- py_decode (fst r) ;;
           json_data <- py_json_loads t ;;
           print (MsgPretty json_data) ;;
           log_if config [All; Success] command (RespJson json_data) ;;
           ret (Structured json_data))
          (fun e =>
             match e with
             | JSONDecodeError =>
               Some (print MsgNotJson ;;
                     t <- py_decode (fst r) ;;
                     print (MsgRaw t) ;;
                     match given_str (logfile config) with
                     | Some path =>
                       when (existsb (log_on_eqb (log_on_ config)) [All; Fail])
                            (t' <- py_decode (fst r) ;;
                             log_entry path (logformat_ config) command
                                       (RespText t') (timestamp_format_ config))
                     | None => ret tt
                     end ;;
                     ret (RawText t))
             | _ => None
             end))
       (fun e =>
          match e with
          | SocketTimeout =>
            Some (print MsgTimeout ;;
                  log_if config [All; Fail] command (RespText "Timeout"%string) ;;
                  ret Timeout)
          | _ => None
          end))
    (sock_close sock).

(** [for i in range(n): body(i)], started at [i] *)
Fixpoint for_range (n : nat) (i : Z) (body : Z -> M unit) : M unit :=
  match n with
  | O => ret tt
  | S n' => body i ;; for_range n' (i + 1) body
  end.

(** [while True: body], cut off after [fuel] rounds *)
Fixpoint while_true (fuel : nat) (body : M unit) : M unit :=
  match fuel with
  | O => fun w => (OutOfFuel, w)
  | S fuel' => body ;; while_true fuel' body
  end.

Definition call_exchange (a : args) : M unit :=
  send_and_receive (port a) (query a) (remote_ip a) (remote_port a) a ;; ret tt.

Definition loop_handler (fuel : nat) (a : args) : M unit :=
  match given_int (repeat a) with
  | Some n =>
    print (MsgLoopingTimes n) ;;
    for_range (Z.to_nat n) 0
      (fun i =>
         print (MsgRequest (i + 1) n) ;;
         call_exchange a ;;
         sleep 5)
  | None =>
    print MsgLoopingUntil ;;
    try_except
      (while_true fuel
         (call_exchange a ;;
          sleep 5))
      (fun e =>
         match e with
         | KeyboardInterrupt => Some (print MsgLoopInterrupted)
         | _ => None
         end)
  end.

Definition main (fuel : nat) (a0 : args) : M unit :=
  a1 <- match given_str (compose_name a0) with
        | Some name =>
          pid <- get_pid_from_compose_name name ;;
          ret (set_ns_pid a0 pid)
        | None => ret a0
        end ;;
  match given_int (ns_pid a1) with
  | Some pid => enter_netns pid
  | None => ret tt
  end ;;
  if loop a1
  then loop_handler fuel a1
  else
    print (MsgSending (query a1) (remote_ip a1) (remote_port a1) (port a1)) ;;
    call_exchange a1.

(** How the process ends: [main()] is the whole script, the interpreter
    turns [SystemExit] into the exit status, and any other exception
    that nobody caught into a traceback and status 1. *)
Inductive status :=
| Exited (code : Z)
| Interrupted
| Running.

Definition run_script (fuel : nat) (a : args) (w : world) : status * world :=
  match main fuel a w with
  | (Ret _, w') => (Exited 0, w')
  | (Raise (SystemExit c), w') => (Exited c, w')
  | (Raise KeyboardInterrupt, w') => (Interrupted, emit (ETraceback KeyboardInterrupt) w')
  | (Raise e, w') => (Exited 1, emit (ETraceback e) w')
  | (Blocked, w') => (Running, w')
  | (OutOfFuel, w') => (Running, w')
  end.

Definition initial (t0 : Z) : world := {|
  clock := t0;
  created := 0;
  slept := 0;
  open_sockets := [];
  trace := []
|}.

(** ** Reading a trace *)

(** What the filter lets through, as the three branches of
    [send_and_receive] test it. *)
Definition admitted (p : log_on) (o : outcome) : bool :=
  match o with
  | Structured _ => existsb (log_on_eqb p) [All; Success]
  | RawText _ => existsb (log_on_eqb p) [All; Fail]
  | Timeout => existsb (log_on_eqb p) [All; Fail]
  end.

Definition response_of (o : outcome) : response :=
  match o with
  | Structured j => RespJson j
  | RawText t => RespText t
  | Timeout => RespText "Timeout"%string
  end.

Definition stamp (fmt : timestamp_format) (t : Z) : timestamp :=
  match fmt with
  | Unix => TsUnix (Z.quot t 1000)
  | Iso => TsIso t
  end.

Definition line_of (fmt : logformat) (ts : timestamp) (q : text) (r : response) : log_line :=
  match fmt with
  | Csv => CsvLine ts q r
  | Json => JsonLine ts q r
  end.

(** The write an exchange with outcome [o], decided at time [t], owes to
    the log file. *)
Definition log_events (cfg : args) (command : text) (t : Z) (o : outcome) : list event :=
  match given_str (logfile cfg) with
  | Some path =>
    if admitted (log_on_ cfg) o
    then [EAppend path (line_of (logformat_ cfg) (stamp (timestamp_format_ cfg) t)
                                command (response_of o))]
    else []
  | None => []
  end.

Definition appended (t : list event) : list (text * log_line) :=
  flat_map (fun e => match e with EAppend p l => [(p, l)] | _ => [] end) t.

(** The coarse steps of a session: progress lines, exchange calls (one
    socket each) and delays, in their order. *)
Inductive step :=
| Progress (i n : Z)
| Call (s : nat)
| Delay (seconds : Z).

Definition skeleton (t : list event) : list step :=
  flat_map (fun e =>
              match e with
              | EPrint (MsgRequest i n) => [Progress i n]
              | ESocket s => [Call s]
              | ESleep d => [Delay d]
              | _ => []
              end) t.

Definition is_open (s : nat) (w : world) : bool :=
  match timeout_of s (open_sockets w) with
  | Some _ => true
  | None => false
  end.

(** The exchange on socket [s] ends normally whatever the configuration:
    bind and send succeed and what arrives, if anything arrives in time,
    is a datagram of well-formed UTF-8. *)
Definition completes (s : nat) : bool :=
  match bind_errno E s, send_errno E s with
  | None, None =>
    match arriving E s with
    | Datagram d dgram _ _ =>
      if d <? 2000
      then match decode (take 4096 dgram) with Some _ => true | None => false end
      else true
    | Silence => true
    | Sigint d => 2000 <=? d
    end
  | _, _ => false
  end.

Definition calls (l : list step) : nat :=
  List.length (filter (fun x => match x with Call _ => true | _ => false end) l).

Definition delays (l : list step) : nat :=
  List.length (filter (fun x => match x with Delay _ => true | _ => false end) l).

(** The outcome a printed line announces. *)
Definition shown (e : event) : option outcome :=
  match e with
  | EPrint (MsgPretty j) => Some (Structured j)
  | EPrint (MsgRaw t) => Some (RawText t)
  | EPrint MsgTimeout => Some Timeout
  | _ => None
  end.

(** A trace is [synced] when every announced outcome is followed at once
    by the log line the configuration asks for (or by none when it asks
    for none) and then by the close of the socket, and when no log line
    stands anywhere else. *)
Fixpoint synced (cfg : args) (evs : list event) : Prop :=
  match evs with
  | [] => True
  | EAppend _ _ :: _ => False
  | e :: rest =>
    match shown e with
    | Some o =>
      match rest with
      | EAppend p l :: EClose _ :: rest' =>
        (exists t, log_events cfg (query cfg) t o = [EAppend p l])
        /\ synced cfg rest'
      | EClose _ :: rest' =>
        log_events cfg (query cfg) 0 o = [] /\ synced cfg rest'
      | _ => False
      end
    | None => synced cfg rest
    end
  end.

Definition set_repeat (a : args) (n : option Z) : args := {|
  port := port a;
  query := query a;
  loop := loop a;
  repeat := n;
  ns_pid := ns_pid a;
  compose_name := compose_name a;
  remote_ip := remote_ip a;
  remote_port := remote_port a;
  logfile := logfile a;
  logformat_ := logformat_ a;
  log_on_ := log_on_ a;
  timestamp_format_ := timestamp_format_ a
|}.

(** ** One exchange, case by case *)

Definition opening (s : nat) (lport : Z) : list event :=
  [ESocket s; EBind s lport; ESetTimeout s 2000].

(** Nothing reaches the socket within [ms] milliseconds. *)
Definition quiet_for (ms : Z) (i : incoming) : bool :=
  match i with
  | Datagram d _ _ _ => ms <=? d
  | Silence => true
  | Sigint d => ms <=? d
  end.

(** [exchange .. s t0 r evs ms closed]: the exchange on socket [s] begun
    at time [t0] ends with [r] after [ms] milliseconds, having caused
    [evs]; [closed] tells whether it closed its socket. *)
Inductive exchange (lport : Z) (command ip : text) (rport : Z) (cfg : args)
    (s : nat) (t0 : Z) : result outcome -> list event -> Z -> bool -> Prop :=
| X_bind_error errno :
    bind_errno E s = Some errno ->
    exchange lport command ip rport cfg s t0
      (Raise (OSError errno)) [ESocket s] 0 false
| X_send_error errno :
    bind_errno E s = None ->
    send_errno E s = Some errno ->
    exchange lport command ip rport cfg s t0
      (Raise (OSError errno)) (opening s lport ++ [EClose s]) 0 true
| X_timeout :
    bind_errno E s = None ->
    send_errno E s = None ->
    quiet_for 2000 (arriving E s) = true ->
    exchange lport command ip rport cfg s t0
      (Ret Timeout)
      (opening s lport
       ++ [ESendTo s (encode command) ip rport; EPrint MsgTimeout]
       ++ log_events cfg command (t0 + 2000) Timeout
       ++ [EClose s])
      2000 true
| X_sigint d :
    bind_errno E s = None ->
    send_errno E s = None ->
    arriving E s = Sigint d ->
    d < 2000 ->
    exchange lport command ip rport cfg s t0
      (Raise KeyboardInterrupt)
      (opening s lport ++ [ESendTo s (encode command) ip rport; EClose s])
      d true
| X_undecodable d dgram ip' rport' :
    bind_errno E s = None ->
    send_errno E s = None ->
    arriving E s = Datagram d dgram ip' rport' ->
    d < 2000 ->
    decode (take 4096 dgram) = None ->
    exchange lport command ip rport cfg s t0
      (Raise UnicodeDecodeError)
      (opening s lport
       ++ [ESendTo s (encode command) ip rport;
           ERecvFrom s (take 4096 dgram);
           EPrint (MsgAnswerFrom ip' rport');
           EClose s])
      d true
| X_structured d dgram ip' rport' t j :
    bind_errno E s = None ->
    send_errno E s = None ->
    arriving E s = Datagram d dgram ip' rport' ->
    d < 2000 ->
    decode (take 4096 dgram) = Some t ->
    json_loads t = Some j ->
    exchange lport command ip rport cfg s t0
      (Ret (Structured j))
      (opening s lport
       ++ [ESendTo s (encode command) ip rport;
           ERecvFrom s (take 4096 dgram);
           EPrint (MsgAnswerFrom ip' rport');
           EPrint (MsgPretty j)]
       ++ log_events cfg command (t0 + d) (Structured j)
       ++ [EClose s])
      d true
| X_raw d dgram ip' rport' t :
    bind_errno E s = None ->
    send_errno E s = None ->
    arriving E s = Datagram d dgram ip' rport' ->
    d < 2000 ->
    decode (take 4096 dgram) = Some t ->
    json_loads t = None ->
    exchange lport command ip rport cfg s t0
      (Ret (RawText t))
      (opening s lport
       ++ [ESendTo s (encode command) ip rport;
           ERecvFrom s (take 4096 dgram);
           EPrint (MsgAnswerFrom ip' rport');
           EPrint MsgNotJson;
           EPrint (MsgRaw t)]
       ++ log_events cfg command (t0 + d) (RawText t)
       ++ [EClose s])
      d true.

(** The world an exchange leaves behind. *)
Definition after_exchange (w : world) (evs : list event) (ms : Z) (closed : bool) : world := {|
  clock := clock w + ms;
  created := S (created w);
  slept := slept w;
  open_sockets :=
    if closed then drop_socket (created w) (open_sockets w)
    else {| sock_id := created w; sock_timeout := None |} :: open_sockets w;
  trace := trace w ++ evs
|}.

(** The result of a call whose value is dropped. *)
Definition unit_result (r : result outcome) : result unit :=
  match r with
  | Ret _ => Ret tt
  | Raise e => Raise e
  | Blocked => Blocked
  | OutOfFuel => OutOfFuel
  end.

(** The steps of round [k] of the bounded loop begun at index [i] with
    socket [s], and those of round [k] of the loop until interrupted. *)
Definition round_steps (n : Z) (i : Z) (s : nat) (k : nat) : list step :=
  [Progress (i + Z.of_nat k + 1) n; Call (s + k); Delay 5].

Definition free_round (s : nat) (k : nat) : list step :=
  [Call (s + k); Delay 5].

(** A computation is [orderly] when what it adds to the trace is
    [synced]. *)
Definition orderly (cfg : args) {A} (m : M A) : Prop :=
  forall w, exists evs, trace (snd (m w)) = trace w ++ evs /\ synced cfg evs.

(** The exception with which the exchange on socket [s] ends, if it ends
    with one: the errors of bind and send, the interrupt that arrives
    before the timeout, the reply that is not UTF-8. *)
Definition raises (s : nat) : option exn :=
  match bind_errno E s with
  | Some errno => Some (OSError errno)
  | None =>
    match send_errno E s with
    | Some errno => Some (OSError errno)
    | None =>
      match arriving E s with
      | Datagram d dgram _ _ =>
        if d <? 2000
        then match decode (take 4096 dgram) with
             | Some _ => None
             | None => Some UnicodeDecodeError
             end
        else None
      | Silence => None
      | Sigint d => if d <? 2000 then Some KeyboardInterrupt else None
      end
    end
  end.

(** The numbers of the open sockets are numbers already given out. *)
Definition fresh (w : world) : Prop :=
  forall k, In k (open_sockets w) -> (sock_id k < created w)%nat.

(** The world after a round that went through: the exchange, then the
    sleep of 5 seconds. *)
Definition after_round (w : world) (evs : list event) (ms : Z) : world := {|
  clock := clock w + ms + 5 * 1000;
  created := S (created w);
  slept := S (slept w);
  open_sockets := drop_socket (created w) (open_sockets w);
  trace := (trace w ++ evs) ++ [ESleep 5]
|}.

(** The command a line of the log carries. *)
Definition line_query (l : log_line) : text :=
  match l with
  | CsvLine _ q _ => q
  | JsonLine _ q _ => q
  end.

(** A computation is [socketless] when it neither opens nor closes a
    socket; it is [tidy] when, begun with the socket numbers in order, it
    leaves them in order and leaves the open sockets as they were, or
    else ends on the error of a bind with the one socket of that bind
    still open. *)
Definition socketless {A} (m : M A) : Prop :=
  forall w,
    open_sockets (snd (m w)) = open_sockets w /\ created (snd (m w)) = created w.

Definition tidy {A} (m : M A) : Prop :=
  forall w,
    fresh w ->
    fresh (snd (m w))
    /\ (open_sockets (snd (m w)) = open_sockets w
        \/ exists errno s,
             fst (m w) = Raise (OSError errno)
             /\ bind_errno E s = Some errno
             /\ open_sockets (snd (m w))
                = {| sock_id := s; sock_timeout := None |} :: open_sockets w).

(** ** Lemmas on the primitives *)

Lemma drop_set_timeout s ms l :
  drop_socket s (set_timeout s ms l) = drop_socket s l.
Proof.
  induction l as [|k l IH]; simpl; [reflexivity|].
  destruct (Nat.eqb (sock_id k) s) eqn:Hk; simpl.
  - rewrite Nat.eqb_refl. simpl. exact IH.
  - rewrite Hk. simpl. now rewrite IH.
Qed.

Lemma timeout_of_fresh s ms l :
  timeout_of s (set_timeout s ms ({| sock_id := s; sock_timeout := None |} :: l))
  = Some (Some ms).
Proof. simpl. now rewrite !Nat.eqb_refl. Qed.

Lemma drop_fresh s ms l :
  drop_socket s (set_timeout s ms ({| sock_id := s; sock_timeout := None |} :: l))
  = drop_socket s l.
Proof.
  rewrite drop_set_timeout. simpl. now rewrite Nat.eqb_refl.
Qed.

Ltac prim :=
  unfold print, sock_settimeout, sock_sendto, sock_close, sock_recvfrom,
    py_decode, py_json_loads, log_if, when, log_entry, get_timestamp, now,
    append_line, ret, raise, bind, emit, advance, with_sockets in *.

Ltac step :=
  cbn -[set_timeout drop_socket timeout_of Z.add Z.ltb Z.leb take Z.quot].

Lemma send_and_receive_exchange lport command ip rport cfg w :
  exists evs ms closed,
    exchange lport command ip rport cfg (created w) (clock w)
             (fst (send_and_receive lport command ip rport cfg w)) evs ms closed
    /\ snd (send_and_receive lport command ip rport cfg w) = after_exchange w evs ms closed.
Proof.
  unfold send_and_receive, bind, try_finally, try_except, socket_new, sock_bind.
  cbn [fst snd].
  destruct (bind_errno E (created w)) as [errno|] eqn:Hb.
  - exists [ESocket (created w)], 0, false. cbn. split; [now constructor|].
    unfold after_exchange. cbn. now rewrite Z.add_0_r.
  - prim. step.
    destruct (send_errno E (created w)) as [errno|] eqn:Hs.
    + step. eexists _, 0, true. split; [now constructor|].
      unfold after_exchange. step.
      rewrite drop_fresh, Z.add_0_r. rewrite <- !app_assoc. reflexivity.
    + step. rewrite timeout_of_fresh.
      destruct (arriving E (created w)) as [d dgram ip' rport'| |d] eqn:Ha;
        [destruct (d <? 2000) eqn:Hd;
         [step; destruct (decode (take 4096 dgram)) as [t|] eqn:Hu;
          [destruct (json_loads t) as [j|] eqn:Hj; [|step; rewrite ?Hu]|]|]
        | |destruct (d <? 2000) eqn:Hd];
        step;
        try (apply Z.ltb_lt in Hd); try (apply Z.ltb_ge in Hd);
        (destruct (given_str (logfile cfg)) as [path|] eqn:Hl;
         destruct (log_on_ cfg) eqn:Hp;
         destruct (logformat_ cfg) eqn:Hf;
         destruct (timestamp_format_ cfg) eqn:Ht;
         step;
         eexists _, _, true;
         (split;
          [ first [ eapply X_structured; eassumption
                  | eapply X_raw; eassumption
                  | eapply X_undecodable; eassumption
                  | eapply X_sigint; eassumption
                  | eapply X_timeout; try eassumption; rewrite Ha; cbn;
                    try reflexivity; now apply Z.leb_le ]
          | unfold after_exchange, log_events, admitted, opening;
            rewrite ?Hl, ?Hp, ?Hf, ?Ht; step;
            rewrite drop_fresh; rewrite <- ?app_assoc; reflexivity ])).
Qed.

Lemma send_and_receive_inv lport command ip rport cfg w r w' :
  send_and_receive lport command ip rport cfg w = (r, w') ->
  exists evs ms closed,
    exchange lport command ip rport cfg (created w) (clock w) r evs ms closed
    /\ w' = after_exchange w evs ms closed.
Proof.
  intros H.
  destruct (send_and_receive_exchange lport command ip rport cfg w)
    as (evs & ms & closed & Hx & Hw).
  rewrite H in Hx, Hw. simpl in Hx, Hw. now exists evs, ms, closed.
Qed.

Lemma appended_app t1 t2 : appended (t1 ++ t2) = appended t1 ++ appended t2.
Proof. apply flat_map_app. Qed.

Lemma skeleton_app t1 t2 : skeleton (t1 ++ t2) = skeleton t1 ++ skeleton t2.
Proof. apply flat_map_app. Qed.

Lemma skeleton_log_events cfg command t o :
  skeleton (log_events cfg command t o) = [].
Proof.
  unfold log_events.
  destruct (given_str (logfile cfg)); [|reflexivity].
  now destruct (admitted (log_on_ cfg) o).
Qed.

(** What an exchange appends to the log: the line of its outcome or
    nothing. *)
Lemma appended_exchange lport command ip rport cfg s t0 r evs ms closed :
  exchange lport command ip rport cfg s t0 r evs ms closed ->
  appended evs =
  match r with
  | Ret o => appended (log_events cfg command (t0 + ms) o)
  | _ => []
  end.
Proof.
  destruct 1; unfold opening; rewrite ?appended_app; simpl;
    rewrite ?appended_app; simpl; now rewrite ?app_nil_r.
Qed.

(** An exchange is one call in the skeleton of the session. *)
Lemma skeleton_exchange lport command ip rport cfg s t0 r evs ms closed :
  exchange lport command ip rport cfg s t0 r evs ms closed ->
  skeleton evs = [Call s].
Proof.
  destruct 1; unfold opening; rewrite ?skeleton_app; simpl;
    rewrite ?skeleton_app, ?skeleton_log_events; reflexivity.
Qed.

Lemma timeout_of_drop s l : timeout_of s (drop_socket s l) = None.
Proof.
  induction l as [|k l IH]; simpl; [reflexivity|].
  destruct (Nat.eqb (sock_id k) s) eqn:Hk; simpl; [exact IH|].
  now rewrite Hk.
Qed.

(** An exchange leaves its socket open only when the bind fails;
    otherwise the close is the last thing it does. *)
Lemma exchange_closes lport command ip rport cfg s t0 r evs ms closed :
  exchange lport command ip rport cfg s t0 r evs ms closed ->
  (closed = false /\ exists errno, bind_errno E s = Some errno)
  \/ (closed = true /\ exists mid, evs = ESocket s :: mid ++ [EClose s]).
Proof.
  destruct 1; [left; eauto|right; split; [reflexivity|]..]; unfold opening.
  - now exists [EBind s lport; ESetTimeout s 2000].
  - exists ([EBind s lport; ESetTimeout s 2000;
             ESendTo s (encode command) ip rport; EPrint MsgTimeout]
            ++ log_events cfg command (t0 + 2000) Timeout).
    reflexivity.
  - now exists [EBind s lport; ESetTimeout s 2000;
                ESendTo s (encode command) ip rport].
  - now exists [EBind s lport; ESetTimeout s 2000;
                ESendTo s (encode command) ip rport;
                ERecvFrom s (take 4096 dgram);
                EPrint (MsgAnswerFrom ip' rport')].
  - exists ([EBind s lport; ESetTimeout s 2000;
             ESendTo s (encode command) ip rport;
             ERecvFrom s (take 4096 dgram);
             EPrint (MsgAnswerFrom ip' rport');
             EPrint (MsgPretty j)]
            ++ log_events cfg command (t0 + d) (Structured j)).
    reflexivity.
  - exists ([EBind s lport; ESetTimeout s 2000;
             ESendTo s (encode command) ip rport;
             ERecvFrom s (take 4096 dgram);
             EPrint (MsgAnswerFrom ip' rport');
             EPrint MsgNotJson;
             EPrint (MsgRaw t)]
            ++ log_events cfg command (t0 + d) (RawText t)).
    reflexivity.
Qed.

(** ** The exchange *)

(** C1 (amended).  Under the filter [success] the sink never receives
    the record of a Timeout, nor that of a raw-text reply; under the
    filter [fail] it never receives the record of a parsed structured
    reply.  A reply that is not JSON counts as a failure for the filter:
    under [fail], with a log file configured, its record is written. *)
Theorem log_filter_policy lport command ip rport cfg w r w' :
  send_and_receive lport command ip rport cfg w = (r, w') ->
  (log_on_ cfg = Success -> r = Ret Timeout ->
   appended (trace w') = appended (trace w))
  /\ (log_on_ cfg = Success -> forall t, r = Ret (RawText t) ->
      appended (trace w') = appended (trace w))
  /\ (log_on_ cfg = Fail -> forall j, r = Ret (Structured j) ->
      appended (trace w') = appended (trace w))
  /\ (log_on_ cfg = Fail -> forall t path,
      r = Ret (RawText t) -> given_str (logfile cfg) = Some path ->
      appended (trace w') =
      appended (trace w)
      ++ [(path, line_of (logformat_ cfg) (stamp (timestamp_format_ cfg) (clock w'))
                         command (RespText t))]).
Proof.
  intros H. apply send_and_receive_inv in H.
  destruct H as (evs & ms & closed & Hx & ->).
  apply appended_exchange in Hx. simpl. rewrite appended_app, Hx.
  unfold log_events, admitted.
  repeat split; intros Hp; intros; subst r; rewrite Hp;
    destruct (given_str (logfile cfg)); simpl;
    rewrite ?app_nil_r; congruence.
Qed.

(** Decoding loses nothing: the text encodes back to the bytes it came
    from. *)
Lemma encode_decode data t : decode data = Some t -> encode t = data.
Proof.
  unfold decode, encode. destruct (utf8_valid data); [|discriminate].
  intros H. inversion H. apply list_byte_of_string_of_list_byte.
Qed.



(** A socket left in blocking mode waits for ever when nothing arrives:
    it is the timeout that bounds the wait. *)
Lemma recvfrom_blocks s bufsize w :
  timeout_of s (open_sockets w) = Some None ->
  arriving E s = Silence ->
  sock_recvfrom s bufsize w = (Blocked, w).
Proof.
  intros Ht Ha. unfold sock_recvfrom. now rewrite Ht, Ha.
Qed.


(** C10.  A reply whose bytes are not UTF-8 yields no outcome at all:
    [UnicodeDecodeError] leaves the exchange, past the handler of the
    JSON error and past the handler of the timeout; nothing is logged,
    the socket is closed on the way out. *)
Theorem undecodable_reply_escapes lport command ip rport cfg w d dgram ip' rport' :
  bind_errno E (created w) = None ->
  send_errno E (created w) = None ->
  arriving E (created w) = Datagram d dgram ip' rport' ->
  d < 2000 ->
  decode (take 4096 dgram) = None ->
  fst (send_and_receive lport command ip rport cfg w) = Raise UnicodeDecodeError
  /\ trace (snd (send_and_receive lport command ip rport cfg w)) =
     trace w
     ++ opening (created w) lport
     ++ [ESendTo (created w) (encode command) ip rport;
         ERecvFrom (created w) (take 4096 dgram);
         EPrint (MsgAnswerFrom ip' rport');
         EClose (created w)]
  /\ appended (trace (snd (send_and_receive lport command ip rport cfg w))) =
     appended (trace w).
Proof.
  intros Hb Hs Ha Hd Hu.
  destruct (send_and_receive_exchange lport command ip rport cfg w)
    as (evs & ms & closed & Hx & Hw).
  rewrite Hw. simpl.
  inversion Hx; subst; try congruence;
    try (match goal with
         | Hq : quiet_for _ _ = true |- _ =>
           rewrite Ha in Hq; simpl in Hq; apply Z.leb_le in Hq; lia
         end);
    match goal with
    | Ha' : arriving E _ = Datagram _ _ _ _ |- _ =>
      rewrite Ha in Ha'; inversion Ha'; subst
    end; try congruence.
  repeat split; try congruence.
  rewrite appended_app. simpl. now rewrite app_nil_r.
Qed.

(** ** The loops *)

Lemma call_exchange_exchange a w :
  exists r evs ms closed,
    exchange (port a) (query a) (remote_ip a) (remote_port a) a
             (created w) (clock w) r evs ms closed
    /\ call_exchange a w = (unit_result r, after_exchange w evs ms closed).
Proof.
  destruct (send_and_receive_exchange (port a) (query a) (remote_ip a)
              (remote_port a) a w) as (evs & ms & closed & Hx & Hw).
  unfold call_exchange, bind.
  destruct (send_and_receive _ _ _ _ _ w) as [r w'] eqn:Hr. simpl in *.
  exists r, evs, ms, closed. split; [exact Hx|].
  subst w'. now destruct r.
Qed.

Lemma exchange_completes lport command ip rport cfg s t0 r evs ms closed :
  exchange lport command ip rport cfg s t0 r evs ms closed ->
  completes s = true ->
  (exists o, r = Ret o) /\ closed = true.
Proof.
  unfold completes.
  destruct 1; intros Hc; try (split; eauto; fail);
    repeat match goal with
           | H : bind_errno _ _ = _ |- _ => rewrite H in Hc; clear H
           | H : send_errno _ _ = _ |- _ => rewrite H in Hc; clear H
           | H : arriving _ _ = _ |- _ => rewrite H in Hc; clear H
           | H : decode _ = _ |- _ => rewrite H in Hc; clear H
           end; try discriminate.
  - apply Z.leb_le in Hc. lia.
  - match goal with
    | H : d < 2000 |- _ => apply Z.ltb_lt in H; rewrite H in Hc
    end. discriminate.
Qed.

(** One round of either loop when nothing goes wrong: the call, then the
    sleep. *)
Lemma round_completes a w :
  completes (created w) = true ->
  sleep_sigint E (slept w) = false ->
  exists w' evs,
    (call_exchange a ;; sleep 5) w = (Ret tt, w')
    /\ created w' = S (created w)
    /\ slept w' = S (slept w)
    /\ trace w' = trace w ++ evs
    /\ skeleton evs = [Call (created w); Delay 5].
Proof.
  intros Hc Hs.
  destruct (call_exchange_exchange a w) as (r & evs & ms & closed & Hx & Hcall).
  destruct (exchange_completes _ _ _ _ _ _ _ _ _ _ _ Hx Hc) as [[o ->] ->].
  unfold bind. rewrite Hcall. simpl. unfold sleep. simpl. rewrite Hs.
  eexists _, (evs ++ [ESleep 5]). split; [reflexivity|]. simpl.
  repeat split; [now rewrite app_assoc|].
  rewrite skeleton_app, (skeleton_exchange _ _ _ _ _ _ _ _ _ _ _ Hx).
  reflexivity.
Qed.

Lemma bind_ok {A B} (m : M A) (k : A -> M B) w a w1 :
  m w = (Ret a, w1) -> bind m k w = k a w1.
Proof. intros H. unfold bind. now rewrite H. Qed.

Lemma flat_map_seq_S {A} (f : nat -> list A) m :
  flat_map f (seq 0 (S m)) = f O ++ flat_map (fun k => f (S k)) (seq 0 m).
Proof.
  simpl. f_equal. rewrite <- seq_shift.
  induction (seq 0 m) as [|x l IH]; simpl; [reflexivity|]. now rewrite IH.
Qed.

Lemma for_range_completes a n m :
  forall i w,
    (forall k, (k < m)%nat -> completes (created w + k) = true) ->
    (forall k, (k < m)%nat -> sleep_sigint E (slept w + k) = false) ->
    exists w' evs,
      for_range m i
        (fun i => print (MsgRequest (i + 1) n) ;; call_exchange a ;; sleep 5) w
      = (Ret tt, w')
      /\ created w' = (created w + m)%nat
      /\ slept w' = (slept w + m)%nat
      /\ trace w' = trace w ++ evs
      /\ skeleton evs = flat_map (round_steps n i (created w)) (seq 0 m).
Proof.
  induction m as [|m IH]; intros i w Hc Hs.
  - exists w, []. simpl. unfold ret.
    rewrite !Nat.add_0_r, app_nil_r. auto.
  - set (w1 := emit (EPrint (MsgRequest (i + 1) n)) w).
    destruct (round_completes a w1) as (w2 & evs2 & Hr & Hc2 & Hs2 & Ht2 & Hk2).
    { simpl. rewrite <- (Nat.add_0_r (created w)). apply Hc. lia. }
    { simpl. rewrite <- (Nat.add_0_r (slept w)). apply Hs. lia. }
    destruct (IH (i + 1) w2) as (w' & evs & Hf & Hc' & Hs' & Ht' & Hk').
    { intros k Hk.
      replace (created w2 + k)%nat with (created w + S k)%nat
        by (rewrite Hc2; subst w1; simpl; lia).
      apply Hc. lia. }
    { intros k Hk.
      replace (slept w2 + k)%nat with (slept w + S k)%nat
        by (rewrite Hs2; subst w1; simpl; lia).
      apply Hs. lia. }
    exists w', (EPrint (MsgRequest (i + 1) n) :: evs2 ++ evs).
    split.
    { simpl for_range.
      rewrite (bind_ok (print (MsgRequest (i + 1) n) ;; call_exchange a ;; sleep 5)
                       _ w tt w2); [exact Hf|].
      now rewrite (bind_ok (print (MsgRequest (i + 1) n)) _ w tt w1 eq_refl). }
    rewrite Hc', Hs', Ht', Hc2, Hs2, Ht2. subst w1.
    cbn [created slept trace emit].
    split; [lia|]. split; [lia|]. split.
    + now rewrite <- !app_assoc.
    + rewrite flat_map_seq_S.
      change (skeleton (EPrint (MsgRequest (i + 1) n) :: evs2 ++ evs))
        with (Progress (i + 1) n :: skeleton (evs2 ++ evs)).
      rewrite skeleton_app, Hk2, Hk', Hc2.
      cbn [created emit round_steps app].
      rewrite Z.add_0_r, Nat.add_0_r.
      do 3 f_equal. apply flat_map_ext. intros k. unfold round_steps.
      replace (i + 1 + Z.of_nat k + 1) with (i + Z.of_nat (S k) + 1) by lia.
      replace (S (created w) + k)%nat with (created w + S k)%nat by lia.
      reflexivity.
Qed.

Lemma calls_round_steps n i s l :
  calls (flat_map (round_steps n i s) l) = List.length l
  /\ delays (flat_map (round_steps n i s) l) = List.length l.
Proof.
  unfold calls, delays.
  induction l as [|k l [IHc IHd]]; simpl; auto.
Qed.

Lemma last_round_steps n i s m d :
  last (flat_map (round_steps n i s) (seq 0 (S m))) d = Delay 5.
Proof.
  rewrite seq_S, flat_map_app. cbn [flat_map]. rewrite app_nil_r.
  change (round_steps n i s (0 + m))
    with ([Progress (i + Z.of_nat (0 + m) + 1) n; Call (s + (0 + m))] ++ [Delay 5]).
  rewrite app_assoc. apply last_last.
Qed.


Lemma calls_free_round s l :
  calls (flat_map (free_round s) l) = List.length l.
Proof.
  unfold calls. induction l as [|k l IH]; simpl; auto.
Qed.

Lemma while_true_completes a fuel :
  forall w,
    (forall k, (k < fuel)%nat -> completes (created w + k) = true) ->
    (forall k, (k < fuel)%nat -> sleep_sigint E (slept w + k) = false) ->
    exists w' evs,
      while_true fuel (call_exchange a ;; sleep 5) w = (OutOfFuel, w')
      /\ trace w' = trace w ++ evs
      /\ skeleton evs = flat_map (free_round (created w)) (seq 0 fuel).
Proof.
  induction fuel as [|fuel IH]; intros w Hc Hs.
  - exists w, []. simpl. now rewrite app_nil_r.
  - destruct (round_completes a w) as (w2 & evs2 & Hr & Hc2 & Hs2 & Ht2 & Hk2).
    { rewrite <- (Nat.add_0_r (created w)). apply Hc. lia. }
    { rewrite <- (Nat.add_0_r (slept w)). apply Hs. lia. }
    destruct (IH w2) as (w' & evs & Hf & Ht' & Hk').
    { intros k Hk.
      replace (created w2 + k)%nat with (created w + S k)%nat by lia.
      apply Hc. lia. }
    { intros k Hk.
      replace (slept w2 + k)%nat with (slept w + S k)%nat by lia.
      apply Hs. lia. }
    exists w', (evs2 ++ evs). split.
    { simpl while_true.
      now rewrite (bind_ok (call_exchange a ;; sleep 5) _ w tt w2 Hr). }
    rewrite Ht', Ht2. split; [now rewrite app_assoc|].
    rewrite flat_map_seq_S, skeleton_app, Hk2, Hk', Hc2.
    unfold free_round at 2. rewrite Nat.add_0_r. f_equal.
    apply flat_map_ext. intros k. unfold free_round.
    now replace (S (created w) + k)%nat with (created w + S k)%nat by lia.
Qed.

(** The round in which the user interrupts the sleep. *)
Lemma round_interrupted a w :
  completes (created w) = true ->
  sleep_sigint E (slept w) = true ->
  exists w' evs,
    (call_exchange a ;; sleep 5) w = (Raise KeyboardInterrupt, w')
    /\ trace w' = trace w ++ evs
    /\ skeleton evs = [Call (created w); Delay 5].
Proof.
  intros Hc Hs.
  destruct (call_exchange_exchange a w) as (r & evs & ms & closed & Hx & Hcall).
  destruct (exchange_completes _ _ _ _ _ _ _ _ _ _ _ Hx Hc) as [[o ->] ->].
  unfold bind. rewrite Hcall. simpl. unfold sleep. simpl. rewrite Hs.
  eexists _, (evs ++ [ESleep 5]). split; [reflexivity|]. simpl.
  split; [now rewrite app_assoc|].
  rewrite skeleton_app, (skeleton_exchange _ _ _ _ _ _ _ _ _ _ _ Hx).
  reflexivity.
Qed.

Lemma while_true_interrupted a :
  forall k fuel w,
    (k < fuel)%nat ->
    (forall j, (j < k)%nat -> completes (created w + j) = true) ->
    (forall j, (j < k)%nat -> sleep_sigint E (slept w + j) = false) ->
    completes (created w + k) = true ->
    sleep_sigint E (slept w + k) = true ->
    exists w' evs,
      while_true fuel (call_exchange a ;; sleep 5) w = (Raise KeyboardInterrupt, w')
      /\ trace w' = trace w ++ evs
      /\ skeleton evs = flat_map (free_round (created w)) (seq 0 (S k)).
Proof.
  induction k as [|k IH]; intros fuel w Hlt Hc Hs Hck Hsk;
    (destruct fuel as [|fuel]; [lia|]).
  - rewrite Nat.add_0_r in Hck, Hsk.
    destruct (round_interrupted a w Hck Hsk) as (w' & evs & Hr & Ht & Hk).
    exists w', evs. split.
    { simpl while_true. unfold bind at 1. now rewrite Hr. }
    split; [exact Ht|]. rewrite Hk. simpl. now rewrite Nat.add_0_r.
  - destruct (round_completes a w) as (w2 & evs2 & Hr & Hc2 & Hs2 & Ht2 & Hk2).
    { rewrite <- (Nat.add_0_r (created w)). apply Hc. lia. }
    { rewrite <- (Nat.add_0_r (slept w)). apply Hs. lia. }
    destruct (IH fuel w2) as (w' & evs & Hf & Ht' & Hk'); try lia.
    { intros j Hj.
      replace (created w2 + j)%nat with (created w + S j)%nat by lia.
      apply Hc. lia. }
    { intros j Hj.
      replace (slept w2 + j)%nat with (slept w + S j)%nat by lia.
      apply Hs. lia. }
    { now replace (created w2 + k)%nat with (created w + S k)%nat by lia. }
    { now replace (slept w2 + k)%nat with (slept w + S k)%nat by lia. }
    exists w', (evs2 ++ evs). split.
    { simpl while_true.
      now rewrite (bind_ok (call_exchange a ;; sleep 5) _ w tt w2 Hr). }
    rewrite Ht', Ht2. split; [now rewrite app_assoc|].
    rewrite (flat_map_seq_S _ (S k)), skeleton_app, Hk2, Hk', Hc2.
    unfold free_round at 2. rewrite Nat.add_0_r. f_equal.
    apply flat_map_ext. intros j. unfold free_round.
    now replace (S (created w) + j)%nat with (created w + S j)%nat by lia.
Qed.


(** ** Every outcome reaches the log in its own exchange *)

Lemma synced_app cfg evs1 evs2 :
  synced cfg evs1 -> synced cfg evs2 -> synced cfg (evs1 ++ evs2).
Proof.
  remember (List.length evs1) as n eqn:Hn.
  revert evs1 Hn.
  induction n as [n IH] using lt_wf_ind. intros evs1 Hn H1 H2.
  destruct evs1 as [|e rest]; [exact H2|].
  assert (Hrest : forall l, (List.length l < n)%nat ->
                            synced cfg l -> synced cfg (l ++ evs2)).
  { intros l Hl Hs. now apply (IH (List.length l) Hl l). }
  subst n.
  destruct e as [m| | | | | | | | | | | | |];
    try (simpl in *; apply Hrest; [simpl; lia|exact H1]);
    try contradiction.
  destruct m; try (simpl in *; apply Hrest; [simpl; lia|exact H1]);
    (destruct rest as [|e' rest']; [contradiction|]);
    (destruct e'; try contradiction);
    try (destruct rest' as [|e'' rest'']; [contradiction|];
         destruct e''; try contradiction);
    simpl in *; destruct H1 as [Ha Hb]; (split; [exact Ha|]);
    apply Hrest; simpl; auto; lia.
Qed.

Lemma log_events_cases cfg q t o :
  (forall t', log_events cfg q t' o = [])
  \/ (exists p l, log_events cfg q t o = [EAppend p l]).
Proof.
  unfold log_events. destruct (given_str (logfile cfg)); [|now left].
  destruct (admitted (log_on_ cfg) o); [right; eauto|now left].
Qed.

Lemma exchange_synced a s t0 r evs ms closed :
  exchange (port a) (query a) (remote_ip a) (remote_port a) a s t0 r evs ms closed ->
  synced a evs.
Proof.
  destruct 1; unfold opening; simpl; auto;
    match goal with
    | |- context [log_events a (query a) ?t ?o] =>
      destruct (log_events_cases a (query a) t o) as [Hl|(p & l & Hl)];
        rewrite Hl; simpl; eauto
    end.
Qed.

Lemma orderly_ret cfg {A} (x : A) : orderly cfg (ret x).
Proof. intros w. exists []. simpl. now rewrite app_nil_r. Qed.

Lemma orderly_raise cfg {A} e : orderly cfg (@raise A e).
Proof. intros w. exists []. simpl. now rewrite app_nil_r. Qed.

Lemma orderly_bind cfg {A B} (m : M A) (k : A -> M B) :
  orderly cfg m -> (forall x, orderly cfg (k x)) -> orderly cfg (bind m k).
Proof.
  intros Hm Hk w. destruct (Hm w) as (evs1 & Ht1 & Hs1).
  unfold bind. destruct (m w) as [[x|e| |] w1]; simpl in *; eauto.
  destruct (Hk x w1) as (evs2 & Ht2 & Hs2).
  exists (evs1 ++ evs2). rewrite Ht2, Ht1, app_assoc.
  split; [reflexivity|]. now apply synced_app.
Qed.

Lemma orderly_try_except cfg {A} (m : M A) handler :
  orderly cfg m ->
  (forall e h, handler e = Some h -> orderly cfg h) ->
  orderly cfg (try_except m handler).
Proof.
  intros Hm Hh w. destruct (Hm w) as (evs1 & Ht1 & Hs1).
  unfold try_except. destruct (m w) as [[x|e| |] w1]; simpl in *; eauto.
  destruct (handler e) as [h|] eqn:He; simpl; eauto.
  destruct (Hh e h He w1) as (evs2 & Ht2 & Hs2).
  exists (evs1 ++ evs2). rewrite Ht2, Ht1, app_assoc.
  split; [reflexivity|]. now apply synced_app.
Qed.

Lemma orderly_print cfg m :
  shown (EPrint m) = None -> orderly cfg (print m).
Proof.
  intros Hm w. exists [EPrint m]. split; [reflexivity|].
  destruct m; try discriminate; exact I.
Qed.

Lemma orderly_sleep cfg d : orderly cfg (sleep d).
Proof.
  intros w. exists [ESleep d]. unfold sleep.
  destruct (sleep_sigint E (slept w)); simpl; auto.
Qed.

Lemma orderly_call_exchange a : orderly a (call_exchange a).
Proof.
  intros w.
  destruct (call_exchange_exchange a w) as (r & evs & ms & closed & Hx & ->).
  exists evs. split; [reflexivity|]. eapply exchange_synced; eauto.
Qed.

Lemma orderly_for_range cfg body n :
  (forall i, orderly cfg (body i)) ->
  forall i, orderly cfg (for_range n i body).
Proof.
  intros Hb. induction n as [|n IH]; intros i; simpl.
  - apply orderly_ret.
  - apply orderly_bind; auto.
Qed.

Lemma orderly_while_true cfg body fuel :
  orderly cfg body -> orderly cfg (while_true fuel body).
Proof.
  intros Hb. induction fuel as [|fuel IH]; simpl.
  - intros w. exists []. simpl. now rewrite app_nil_r.
  - apply orderly_bind; auto.
Qed.

Lemma orderly_loop_handler fuel a : orderly a (loop_handler fuel a).
Proof.
  unfold loop_handler. destruct (given_int (repeat a)) as [n|].
  - apply orderly_bind; [now apply orderly_print|]. intros _.
    apply orderly_for_range. intros i.
    apply orderly_bind; [now apply orderly_print|]. intros _.
    apply orderly_bind; [apply orderly_call_exchange|]. intros _.
    apply orderly_sleep.
  - apply orderly_bind; [now apply orderly_print|]. intros _.
    apply orderly_try_except.
    + apply orderly_while_true.
      apply orderly_bind; [apply orderly_call_exchange|]. intros _.
      apply orderly_sleep.
    + intros e h He. destruct e; try discriminate.
      inversion He; subst. now apply orderly_print.
Qed.

Lemma orderly_enter_netns cfg pid : orderly cfg (enter_netns pid).
Proof.
  unfold enter_netns.
  apply orderly_bind; [apply orderly_ret|]. intros euid.
  apply orderly_bind.
  { unfold when. destruct (negb (euid =? 0)); [|apply orderly_ret].
    apply orderly_bind; [now apply orderly_print|]. intros _.
    apply orderly_raise. }
  intros _. apply orderly_try_except.
  - apply orderly_bind.
    { intros w. unfold os_open_netns.
      destruct (open_netns E pid) as [errno|fd]; simpl.
      - exists []. now rewrite app_nil_r.
      - exists [EOpenNetns pid fd]. simpl. auto. }
    intros fd. apply orderly_bind.
    { unfold setns. apply orderly_bind.
      - intros w. unfold LIBC_setns. simpl.
        destruct (fst (libc_setns E fd 0) =? 0); simpl.
        + exists [ESetns fd]. simpl. auto.
        + exists []. now rewrite app_nil_r.
      - intros r. destruct (negb (fst r =? 0));
          [apply orderly_raise|apply orderly_ret]. }
    intros _. apply orderly_bind.
    { intros w. exists [ECloseFd fd]. simpl. auto. }
    intros _. now apply orderly_print.
  - intros e h He. destruct (is_Exception e); [|discriminate].
    inversion He; subst.
    apply orderly_bind; [now apply orderly_print|]. intros _.
    apply orderly_raise.
Qed.

Lemma orderly_get_pid cfg name : orderly cfg (get_pid_from_compose_name name).
Proof.
  unfold get_pid_from_compose_name. apply orderly_try_except.
  - apply orderly_bind.
    { intros w. unfold run_docker_inspect.
      destruct (docker_inspect E name); simpl.
      - exists [ERunDocker name]. simpl. auto.
      - exists [ERunDocker name]. simpl. auto.
      - exists []. now rewrite app_nil_r. }
    intros out. apply orderly_bind.
    { unfold py_int. destruct (int_of_str (str_strip out));
        [apply orderly_ret|apply orderly_raise]. }
    intros pid. apply orderly_bind; [now apply orderly_print|]. intros _.
    apply orderly_ret.
  - intros e h He. destruct e; try discriminate. inversion He; subst.
    apply orderly_bind; [now apply orderly_print|]. intros _.
    apply orderly_raise.
Qed.

Lemma synced_set_ns_pid a pid evs :
  synced (set_ns_pid a pid) evs -> synced a evs.
Proof.
  remember (List.length evs) as n eqn:Hn.
  revert evs Hn.
  induction n as [n IH] using lt_wf_ind. intros evs Hn H.
  destruct evs as [|e rest]; [exact I|].
  assert (Hrest : forall l, (List.length l < n)%nat ->
                            synced (set_ns_pid a pid) l -> synced a l).
  { intros l Hl Hs. now apply (IH (List.length l) Hl l). }
  subst n.
  destruct e as [m| | | | | | | | | | | | |];
    try (simpl in *; apply Hrest; [simpl; lia|exact H]);
    try contradiction.
  destruct m; try (simpl in *; apply Hrest; [simpl; lia|exact H]);
    (destruct rest as [|e' rest']; [contradiction|]);
    (destruct e'; try contradiction);
    try (destruct rest' as [|e'' rest'']; [contradiction|];
         destruct e''; try contradiction);
    simpl in *; destruct H as [Ha Hb]; (split; [exact Ha|]);
    apply Hrest; simpl; auto; lia.
Qed.

Lemma orderly_set_ns_pid a pid {A} (m : M A) :
  orderly (set_ns_pid a pid) m -> orderly a m.
Proof.
  intros Hm w. destruct (Hm w) as (evs & Ht & Hs).
  exists evs. split; [exact Ht|]. now apply synced_set_ns_pid in Hs.
Qed.

Lemma orderly_tail fuel a1 :
  orderly a1
    (match given_int (ns_pid a1) with
     | Some pid => enter_netns pid
     | None => ret tt
     end ;;
     if loop a1
     then loop_handler fuel a1
     else
       print (MsgSending (query a1) (remote_ip a1) (remote_port a1) (port a1)) ;;
       call_exchange a1).
Proof.
  apply orderly_bind.
  { destruct (given_int (ns_pid a1)); [apply orderly_enter_netns|apply orderly_ret]. }
  intros _. destruct (loop a1); [apply orderly_loop_handler|].
  apply orderly_bind; [now apply orderly_print|]. intros _.
  apply orderly_call_exchange.
Qed.

Lemma orderly_main fuel a : orderly a (main fuel a).
Proof.
  unfold main. destruct (given_str (compose_name a)) as [name|].
  - intros w.
    destruct (orderly_get_pid a name w) as (evs1 & Ht1 & Hs1).
    unfold bind at 1 2.
    destruct (get_pid_from_compose_name name w) as [[pid|e| |] w1];
      simpl in *; eauto.
    destruct (orderly_set_ns_pid a pid _ (orderly_tail fuel (set_ns_pid a pid)) w1)
      as (evs2 & Ht2 & Hs2).
    exists (evs1 ++ evs2). split; [|now apply synced_app].
    now rewrite app_assoc, <- Ht1, <- Ht2.
  - intros w. rewrite (bind_ok (ret a) _ w a w eq_refl).
    apply orderly_tail.
Qed.


(** ** Entering the namespace *)

Lemma enter_netns_not_root pid w :
  geteuid E <> 0 ->
  enter_netns pid w = (Raise (SystemExit 1), emit (EPrint MsgMustBeRoot) w).
Proof.
  intros He. unfold enter_netns, os_geteuid, bind, ret, when.
  apply Z.eqb_neq in He. rewrite He. reflexivity.
Qed.

Lemma get_pid_resolved name out pid w :
  docker_inspect E name = Completed out ->
  int_of_str (str_strip out) = Some pid ->
  get_pid_from_compose_name name w
  = (Ret pid, emit (EPrint (MsgResolved name pid)) (emit (ERunDocker name) w)).
Proof.
  intros Hd Hi.
  unfold get_pid_from_compose_name, try_except, bind, run_docker_inspect, py_int.
  now rewrite Hd, Hi.
Qed.

(** The one failure the function provides for: the runtime exits with
    an error. *)
Lemma get_pid_docker_failed name rc err w :
  docker_inspect E name = Failed rc err ->
  get_pid_from_compose_name name w
  = (Raise (SystemExit 1),
     emit (EPrint (MsgCouldNotResolve name err)) (emit (ERunDocker name) w)).
Proof.
  intros Hd.
  unfold get_pid_from_compose_name, try_except, bind, run_docker_inspect.
  now rewrite Hd.
Qed.



(** ** More on entering the namespace *)

(** X1.  As root, with the handle opened and [setns] answering 0,
    [enter_netns] opens the handle, joins the namespace, closes the
    handle, reports and returns. *)
Theorem enter_netns_as_root pid fd w :
  geteuid E = 0 ->
  open_netns E pid = inr fd ->
  fst (libc_setns E fd 0) = 0 ->
  enter_netns pid w
  = (Ret tt,
     emit (EPrint (MsgEntered pid))
          (emit (ECloseFd fd) (emit (ESetns fd) (emit (EOpenNetns pid fd) w)))).
Proof.
  intros He Ho Hs.
  unfold enter_netns, setns.
  unfold os_geteuid, bind, ret, when, try_except, os_open_netns,
    LIBC_setns, os_close, print.
  rewrite He, Ho. simpl. rewrite Hs. reflexivity.
Qed.

(** X2.  As root, when [setns] fails, the diagnostic carries the error
    number, the script exits with status 1, and the handle that was
    opened is not closed: [os.close] is skipped. *)
Theorem enter_netns_setns_fails pid fd w :
  geteuid E = 0 ->
  open_netns E pid = inr fd ->
  fst (libc_setns E fd 0) <> 0 ->
  enter_netns pid w
  = (Raise (SystemExit 1),
     emit (EPrint (MsgNsFailed (OSError (snd (libc_setns E fd 0)))))
          (emit (EOpenNetns pid fd) w))
  /\ ~ In (ECloseFd fd)
          [EOpenNetns pid fd;
           EPrint (MsgNsFailed (OSError (snd (libc_setns E fd 0))))].
Proof.
  intros He Ho Hs. apply Z.eqb_neq in Hs. split.
  - unfold enter_netns, setns, sys_exit.
    unfold os_geteuid, bind, ret, when, try_except, os_open_netns,
      LIBC_setns, os_close, print, raise.
    rewrite He, Ho. simpl. rewrite Hs. reflexivity.
  - intros [H|[H|[]]]; discriminate.
Qed.

(** X3.  [enter_netns] has two ways out and no other: it returns, and
    then the user is root, the handle was opened and [setns] answered
    0; or it exits with status 1, and then the last thing it did was to
    print one of its two diagnostics. *)
Theorem enter_netns_returns_or_exits pid w :
  (fst (enter_netns pid w) = Ret tt
   /\ geteuid E = 0
   /\ exists fd, open_netns E pid = inr fd /\ fst (libc_setns E fd 0) = 0)
  \/ (fst (enter_netns pid w) = Raise (SystemExit 1)
      /\ exists evs m,
           trace (snd (enter_netns pid w)) = trace w ++ evs ++ [EPrint m]
           /\ (m = MsgMustBeRoot \/ exists e, m = MsgNsFailed e)).
Proof.
  unfold enter_netns, setns, sys_exit.
  unfold os_geteuid, bind, ret, when, try_except, os_open_netns,
    LIBC_setns, os_close, print, raise.
  destruct (geteuid E =? 0) eqn:He; simpl.
  - apply Z.eqb_eq in He.
    destruct (open_netns E pid) as [errno|fd] eqn:Ho; simpl.
    + right. split; [reflexivity|]. exists [], (MsgNsFailed (OSError errno)).
      split; [reflexivity|]. right. eauto.
    + destruct (fst (libc_setns E fd 0) =? 0) eqn:Hs; simpl.
      * left. apply Z.eqb_eq in Hs. repeat split; eauto.
      * right. split; [reflexivity|].
        exists [EOpenNetns pid fd], (MsgNsFailed (OSError (snd (libc_setns E fd 0)))).
        split; [now rewrite <- app_assoc|]. right. eauto.
  - right. split; [reflexivity|]. exists [], MsgMustBeRoot.
    split; [reflexivity|]. now left.
Qed.

(** X4.  When the container runtime exits with an error, the script
    prints that it could not resolve the container, with the runtime's
    error output, and exits with status 1; nothing else has happened, in
    particular no socket was created. *)
Theorem docker_failure_exits fuel a w name rc err :
  given_str (compose_name a) = Some name ->
  docker_inspect E name = Failed rc err ->
  run_script fuel a w
  = (Exited 1,
     emit (EPrint (MsgCouldNotResolve name err)) (emit (ERunDocker name) w)).
Proof.
  intros Hc Hd. unfold run_script, main. rewrite Hc.
  unfold bind at 1 2. now rewrite (get_pid_docker_failed name rc err w Hd).
Qed.

(** X5.  When the container runtime cannot be started at all, the error
    is not [CalledProcessError] and nobody catches it: the script prints
    nothing of its own and the process ends on the uncaught [OSError]. *)
Theorem docker_not_started_uncaught fuel a w name errno :
  given_str (compose_name a) = Some name ->
  docker_inspect E name = NotStarted errno ->
  run_script fuel a w = (Exited 1, emit (ETraceback (OSError errno)) w).
Proof.
  intros Hc Hd. unfold run_script, main. rewrite Hc.
  unfold bind at 1 2.
  unfold get_pid_from_compose_name, try_except, bind, run_docker_inspect.
  now rewrite Hd.
Qed.

(** X6.  A container name takes precedence over a process id: with [-c]
    given, what [-i] says has no effect on the run. *)
Theorem compose_name_overrides_ns_pid fuel a w name p :
  given_str (compose_name a) = Some name ->
  main fuel (with_netns a p (compose_name a)) w = main fuel a w.
Proof.
  intros Hc. unfold main.
  change (compose_name (with_netns a p (compose_name a))) with (compose_name a).
  rewrite Hc. unfold bind at 1 2 5 6.
  destruct (get_pid_from_compose_name name w) as [[pid|e| |] w1]; reflexivity.
Qed.

(** ** More on one exchange *)

Lemma exchange_starts lport command ip rport cfg s t0 r evs ms closed :
  exchange lport command ip rport cfg s t0 r evs ms closed ->
  exists rest, evs = ESocket s :: rest.
Proof. destruct 1; unfold opening; simpl; eauto. Qed.

Lemma exchange_raises lport command ip rport cfg s t0 r evs ms closed e :
  exchange lport command ip rport cfg s t0 r evs ms closed ->
  raises s = Some e ->
  r = Raise e.
Proof.
  unfold raises.
  destruct 1; intros Hr;
    repeat match goal with
           | H : bind_errno _ _ = _ |- _ => rewrite H in Hr; clear H
           | H : send_errno _ _ = _ |- _ => rewrite H in Hr; clear H
           | H : arriving _ _ = _ |- _ => rewrite H in Hr; clear H
           | H : decode _ = _ |- _ => rewrite H in Hr; clear H
           | H : ?d < 2000 |- _ => apply Z.ltb_lt in H; rewrite H in Hr; clear H
           end; try congruence.
  unfold quiet_for in *. destruct (arriving E s); try discriminate;
    match goal with
    | H : (2000 <=? ?d) = true |- _ =>
      apply Z.leb_le in H;
      destruct (d <? 2000) eqn:Hd; [apply Z.ltb_lt in Hd; lia|discriminate]
    end.
Qed.

Lemma exchange_duration lport command ip rport cfg s t0 r evs ms closed :
  exchange lport command ip rport cfg s t0 r evs ms closed -> ms <= 2000.
Proof. destruct 1; lia. Qed.

(** X7.  No exchange takes more than the 2000 milliseconds of the
    receive timeout, however it ends. *)
Theorem exchange_within_timeout lport command ip rport cfg w :
  clock (snd (send_and_receive lport command ip rport cfg w)) <= clock w + 2000.
Proof.
  destruct (send_and_receive_exchange lport command ip rport cfg w)
    as (evs & ms & closed & Hx & ->).
  apply exchange_duration in Hx. simpl. lia.
Qed.


Lemma drop_socket_absent s l :
  (forall k, In k l -> (sock_id k < s)%nat) -> drop_socket s l = l.
Proof.
  induction l as [|k l IH]; intros H; simpl; [reflexivity|].
  destruct (Nat.eqb (sock_id k) s) eqn:Hk.
  - apply Nat.eqb_eq in Hk. specialize (H k (or_introl eq_refl)). lia.
  - simpl. f_equal. apply IH. intros k' Hk'. apply H. now right.
Qed.

(** X9.  Sockets do not pile up: when the numbers of the open sockets
    are numbers already given out, an exchange whose bind succeeds leaves
    the open sockets exactly as it found them, and in every case the
    numbers stay in order. *)
Theorem exchange_leaves_no_socket lport command ip rport cfg w r w' :
  fresh w ->
  send_and_receive lport command ip rport cfg w = (r, w') ->
  fresh w'
  /\ (bind_errno E (created w) = None -> open_sockets w' = open_sockets w).
Proof.
  intros Hf H. apply send_and_receive_inv in H.
  destruct H as (evs & ms & closed & Hx & ->).
  destruct (exchange_closes _ _ _ _ _ _ _ _ _ _ _ Hx)
    as [(-> & errno & He)|(-> & mid & ->)]; unfold fresh; simpl.
  - split; [|congruence].
    intros k [<-|Hk]; simpl; [lia|]. specialize (Hf k Hk). lia.
  - rewrite (drop_socket_absent _ _ Hf). split; [|reflexivity].
    intros k Hk. specialize (Hf k Hk). lia.
Qed.

(** X10.  What is kept of a reply never exceeds the receive buffer: the
    text of a raw-text outcome is at most 4096 bytes long. *)
Theorem raw_text_fits_buffer lport command ip rport cfg w t w' :
  send_and_receive lport command ip rport cfg w = (Ret (RawText t), w') ->
  Z.of_nat (List.length (encode t)) <= 4096.
Proof.
  intros H. apply send_and_receive_inv in H.
  destruct H as (evs & ms & closed & Hx & _).
  inversion Hx; subst.
  match goal with
  | Hu : decode _ = Some t |- _ => apply encode_decode in Hu; rewrite Hu
  end.
  unfold take. pose proof (firstn_le_length (Z.to_nat 4096) dgram) as Hle.
  lia.
Qed.

(** ** More on the session *)


(** X12.  As root, the namespace is entered before anything else is
    done: the run begins with opening the handle, joining the namespace,
    closing the handle and reporting, and every socket of the run comes
    after. *)
Theorem namespace_entered_first fuel a w pid fd :
  given_str (compose_name a) = None ->
  given_int (ns_pid a) = Some pid ->
  geteuid E = 0 ->
  open_netns E pid = inr fd ->
  fst (libc_setns E fd 0) = 0 ->
  exists rest,
    trace (snd (main fuel a w)) =
    trace w
    ++ [EOpenNetns pid fd; ESetns fd; ECloseFd fd; EPrint (MsgEntered pid)]
    ++ rest.
Proof.
  intros Hc Hn He Ho Hs.
  set (w1 := emit (EPrint (MsgEntered pid))
               (emit (ECloseFd fd) (emit (ESetns fd) (emit (EOpenNetns pid fd) w)))).
  assert (Ht : exists rest,
             trace (snd ((if loop a
                          then loop_handler fuel a
                          else
                            print (MsgSending (query a) (remote_ip a)
                                              (remote_port a) (port a)) ;;
                            call_exchange a) w1))
             = trace w1 ++ rest).
  { destruct (loop a).
    - destruct (orderly_loop_handler fuel a w1) as (evs & Ht & _). eauto.
    - assert (Ho' : orderly a
                      (print (MsgSending (query a) (remote_ip a)
                                         (remote_port a) (port a)) ;;
                       call_exchange a)).
      { apply orderly_bind; [now apply orderly_print|]. intros _.
        apply orderly_call_exchange. }
      destruct (Ho' w1) as (evs & Ht & _). eauto. }
  destruct Ht as (rest & Ht). exists rest.
  unfold main. rewrite Hc.
  rewrite (bind_ok (ret a) _ w a w eq_refl). rewrite Hn.
  rewrite (bind_ok (enter_netns pid) _ w tt w1
             (enter_netns_as_root pid fd w He Ho Hs)).
  rewrite Ht. subst w1. simpl. now rewrite <- !app_assoc.
Qed.

(** ** More on the loops *)

Lemma round_completes_full a w :
  completes (created w) = true ->
  sleep_sigint E (slept w) = false ->
  exists o evs ms,
    exchange (port a) (query a) (remote_ip a) (remote_port a) a
             (created w) (clock w) (Ret o) evs ms true
    /\ (call_exchange a ;; sleep 5) w = (Ret tt, after_round w evs ms).
Proof.
  intros Hc Hs.
  destruct (call_exchange_exchange a w) as (r & evs & ms & closed & Hx & Hcall).
  destruct (exchange_completes _ _ _ _ _ _ _ _ _ _ _ Hx Hc) as [[o ->] ->].
  exists o, evs, ms. split; [exact Hx|].
  unfold bind. rewrite Hcall. simpl. unfold sleep. simpl. now rewrite Hs.
Qed.

Lemma round_raises a w e :
  raises (created w) = Some e ->
  exists w' evs,
    (call_exchange a ;; sleep 5) w = (Raise e, w')
    /\ trace w' = trace w ++ evs
    /\ skeleton evs = [Call (created w)]
    /\ (bind_errno E (created w) = None ->
        exists mid, evs = ESocket (created w) :: mid ++ [EClose (created w)]).
Proof.
  intros Hr.
  destruct (call_exchange_exchange a w) as (r & evs & ms & closed & Hx & Hcall).
  pose proof (exchange_raises _ _ _ _ _ _ _ _ _ _ _ e Hx Hr) as ->.
  exists (after_exchange w evs ms closed), evs.
  split; [unfold bind; now rewrite Hcall|].
  split; [reflexivity|].
  split; [eapply skeleton_exchange; eauto|].
  intros Hb.
  destruct (exchange_closes _ _ _ _ _ _ _ _ _ _ _ Hx)
    as [(_ & errno & He)|(_ & mid & ->)]; [congruence|eauto].
Qed.

Lemma calls_app l1 l2 : calls (l1 ++ l2) = (calls l1 + calls l2)%nat.
Proof. unfold calls. now rewrite filter_app, length_app. Qed.

Lemma delays_app l1 l2 : delays (l1 ++ l2) = (delays l1 + delays l2)%nat.
Proof. unfold delays. now rewrite filter_app, length_app. Qed.

Lemma delays_free_round s l :
  delays (flat_map (free_round s) l) = List.length l.
Proof.
  unfold delays. induction l as [|k l IH]; simpl; auto.
Qed.

Lemma for_range_raises a n0 e :
  forall k n i w,
    (k < n)%nat ->
    (forall j, (j < k)%nat -> completes (created w + j) = true) ->
    (forall j, (j < k)%nat -> sleep_sigint E (slept w + j) = false) ->
    raises (created w + k) = Some e ->
    exists w' evs,
      for_range n i
        (fun i => print (MsgRequest (i + 1) n0) ;; call_exchange a ;; sleep 5) w
      = (Raise e, w')
      /\ trace w' = trace w ++ evs
      /\ skeleton evs =
         flat_map (round_steps n0 i (created w)) (seq 0 k)
         ++ [Progress (i + Z.of_nat k + 1) n0; Call (created w + k)].
Proof.
  induction k as [|k IH]; intros n i w Hlt Hc Hs Hr;
    (destruct n as [|n]; [lia|]);
    set (w1 := emit (EPrint (MsgRequest (i + 1) n0)) w).
  - rewrite Nat.add_0_r in Hr.
    destruct (round_raises a w1 e Hr) as (w' & evs & Hrun & Ht & Hk & _).
    exists w', (EPrint (MsgRequest (i + 1) n0) :: evs).
    split.
    { simpl for_range. unfold bind at 1.
      rewrite (bind_ok (print (MsgRequest (i + 1) n0)) _ w tt w1 eq_refl).
      now rewrite Hrun. }
    split; [rewrite Ht; subst w1; simpl; now rewrite <- app_assoc|].
    simpl. rewrite Hk. simpl. now rewrite Z.add_0_r, Nat.add_0_r.
  - destruct (round_completes a w1) as (w2 & evs2 & Hrun & Hc2 & Hs2 & Ht2 & Hk2).
    { simpl. rewrite <- (Nat.add_0_r (created w)). apply Hc. lia. }
    { simpl. rewrite <- (Nat.add_0_r (slept w)). apply Hs. lia. }
    destruct (IH n (i + 1) w2) as (w' & evs & Hf & Ht' & Hk'); try lia.
    { intros j Hj.
      replace (created w2 + j)%nat with (created w + S j)%nat
        by (rewrite Hc2; subst w1; simpl; lia).
      apply Hc. lia. }
    { intros j Hj.
      replace (slept w2 + j)%nat with (slept w + S j)%nat
        by (rewrite Hs2; subst w1; simpl; lia).
      apply Hs. lia. }
    { replace (created w2 + k)%nat with (created w + S k)%nat
        by (rewrite Hc2; subst w1; simpl; lia).
      exact Hr. }
    exists w', (EPrint (MsgRequest (i + 1) n0) :: evs2 ++ evs).
    split.
    { simpl for_range.
      rewrite (bind_ok (print (MsgRequest (i + 1) n0) ;; call_exchange a ;; sleep 5)
                       _ w tt w2); [exact Hf|].
      now rewrite (bind_ok (print (MsgRequest (i + 1) n0)) _ w tt w1 eq_refl). }
    rewrite Ht', Ht2. subst w1. cbn [trace emit]. split.
    + now rewrite <- !app_assoc.
    + rewrite flat_map_seq_S.
      change (skeleton (EPrint (MsgRequest (i + 1) n0) :: evs2 ++ evs))
        with (Progress (i + 1) n0 :: skeleton (evs2 ++ evs)).
      rewrite skeleton_app, Hk2, Hk', Hc2.
      cbn [created emit round_steps app].
      rewrite Z.add_0_r, Nat.add_0_r.
      do 3 f_equal. f_equal.
      * apply flat_map_ext. intros j. unfold round_steps.
        replace (i + 1 + Z.of_nat j + 1) with (i + Z.of_nat (S j) + 1) by lia.
        replace (S (created w) + j)%nat with (created w + S j)%nat by lia.
        reflexivity.
      * replace (i + 1 + Z.of_nat k + 1) with (i + Z.of_nat (S k) + 1) by lia.
        replace (S (created w) + k)%nat with (created w + S k)%nat by lia.
        reflexivity.
Qed.


Lemma for_range_sleep_interrupted a n0 :
  forall k n i w,
    (k < n)%nat ->
    (forall j, (j < S k)%nat -> completes (created w + j) = true) ->
    (forall j, (j < k)%nat -> sleep_sigint E (slept w + j) = false) ->
    sleep_sigint E (slept w + k) = true ->
    exists w' evs,
      for_range n i
        (fun i => print (MsgRequest (i + 1) n0) ;; call_exchange a ;; sleep 5) w
      = (Raise KeyboardInterrupt, w')
      /\ trace w' = trace w ++ evs
      /\ skeleton evs = flat_map (round_steps n0 i (created w)) (seq 0 (S k)).
Proof.
  induction k as [|k IH]; intros n i w Hlt Hc Hs Hr;
    (destruct n as [|n]; [lia|]);
    set (w1 := emit (EPrint (MsgRequest (i + 1) n0)) w).
  - rewrite Nat.add_0_r in Hr.
    destruct (round_interrupted a w1) as (w' & evs & Hrun & Ht & Hk).
    { simpl. rewrite <- (Nat.add_0_r (created w)). apply Hc. lia. }
    { exact Hr. }
    exists w', (EPrint (MsgRequest (i + 1) n0) :: evs).
    split.
    { simpl for_range. unfold bind at 1.
      rewrite (bind_ok (print (MsgRequest (i + 1) n0)) _ w tt w1 eq_refl).
      now rewrite Hrun. }
    split; [rewrite Ht; subst w1; simpl; now rewrite <- app_assoc|].
    simpl. rewrite Hk. simpl. now rewrite Z.add_0_r, Nat.add_0_r.
  - destruct (round_completes a w1) as (w2 & evs2 & Hrun & Hc2 & Hs2 & Ht2 & Hk2).
    { simpl. rewrite <- (Nat.add_0_r (created w)). apply Hc. lia. }
    { simpl. rewrite <- (Nat.add_0_r (slept w)). apply Hs. lia. }
    destruct (IH n (i + 1) w2) as (w' & evs & Hf & Ht' & Hk'); try lia.
    { intros j Hj.
      replace (created w2 + j)%nat with (created w + S j)%nat
        by (rewrite Hc2; subst w1; simpl; lia).
      apply Hc. lia. }
    { intros j Hj.
      replace (slept w2 + j)%nat with (slept w + S j)%nat
        by (rewrite Hs2; subst w1; simpl; lia).
      apply Hs. lia. }
    { replace (slept w2 + k)%nat with (slept w + S k)%nat
        by (rewrite Hs2; subst w1; simpl; lia).
      exact Hr. }
    exists w', (EPrint (MsgRequest (i + 1) n0) :: evs2 ++ evs).
    split.
    { simpl for_range.
      rewrite (bind_ok (print (MsgRequest (i + 1) n0) ;; call_exchange a ;; sleep 5)
                       _ w tt w2); [exact Hf|].
      now rewrite (bind_ok (print (MsgRequest (i + 1) n0)) _ w tt w1 eq_refl). }
    rewrite Ht', Ht2. subst w1. cbn [trace emit]. split.
    + now rewrite <- !app_assoc.
    + rewrite (flat_map_seq_S _ (S k)).
      change (skeleton (EPrint (MsgRequest (i + 1) n0) :: evs2 ++ evs))
        with (Progress (i + 1) n0 :: skeleton (evs2 ++ evs)).
      rewrite skeleton_app, Hk2, Hk', Hc2.
      cbn [created emit app]. unfold round_steps at 2.
      rewrite Z.add_0_r, Nat.add_0_r. cbn [app].
      do 3 f_equal.
      apply flat_map_ext. intros j. unfold round_steps.
      replace (i + 1 + Z.of_nat j + 1) with (i + Z.of_nat (S j) + 1) by lia.
      replace (S (created w) + j)%nat with (created w + S j)%nat by lia.
      reflexivity.
Qed.


Lemma while_true_raises a e :
  forall k fuel w,
    (k < fuel)%nat ->
    (forall j, (j < k)%nat -> completes (created w + j) = true) ->
    (forall j, (j < k)%nat -> sleep_sigint E (slept w + j) = false) ->
    raises (created w + k) = Some e ->
    exists w' evs last,
      while_true fuel (call_exchange a ;; sleep 5) w = (Raise e, w')
      /\ trace w' = trace w ++ evs ++ last
      /\ skeleton evs = flat_map (free_round (created w)) (seq 0 k)
      /\ skeleton last = [Call (created w + k)]
      /\ (bind_errno E (created w + k) = None ->
          exists mid,
            last = ESocket (created w + k) :: mid ++ [EClose (created w + k)]).
Proof.
  induction k as [|k IH]; intros fuel w Hlt Hc Hs Hr;
    (destruct fuel as [|fuel]; [lia|]).
  - rewrite Nat.add_0_r in *.
    destruct (round_raises a w e Hr) as (w' & evs & Hrun & Ht & Hk & Hcl).
    exists w', [], evs. split.
    { simpl while_true. unfold bind at 1. now rewrite Hrun. }
    repeat split; auto.
  - destruct (round_completes a w) as (w2 & evs2 & Hrun & Hc2 & Hs2 & Ht2 & Hk2).
    { rewrite <- (Nat.add_0_r (created w)). apply Hc. lia. }
    { rewrite <- (Nat.add_0_r (slept w)). apply Hs. lia. }
    replace (created w + S k)%nat with (created w2 + k)%nat in * by lia.
    destruct (IH fuel w2) as (w' & evs & last & Hf & Ht' & Hk' & Hl & Hcl);
      try lia; try assumption.
    { intros j Hj.
      replace (created w2 + j)%nat with (created w + S j)%nat by lia.
      apply Hc. lia. }
    { intros j Hj.
      replace (slept w2 + j)%nat with (slept w + S j)%nat by lia.
      apply Hs. lia. }
    exists w', (evs2 ++ evs), last. split.
    { simpl while_true.
      now rewrite (bind_ok (call_exchange a ;; sleep 5) _ w tt w2 Hrun). }
    rewrite Ht', Ht2. split; [now rewrite <- !app_assoc|].
    split; [|split; assumption].
    rewrite (flat_map_seq_S _ k), skeleton_app, Hk2, Hk', Hc2.
    unfold free_round at 2. rewrite Nat.add_0_r. f_equal.
    apply flat_map_ext. intros j. unfold free_round.
    now replace (S (created w) + j)%nat with (created w + S j)%nat by lia.
Qed.

Lemma raises_interrupt_bound s :
  raises s = Some KeyboardInterrupt -> bind_errno E s = None.
Proof.
  unfold raises. destruct (bind_errno E s); [discriminate|reflexivity].
Qed.



Lemma while_true_never_returns fuel (body : M unit) :
  forall w x, fst (while_true fuel body w) <> Ret x.
Proof.
  induction fuel as [|fuel IH]; intros w x; simpl; [discriminate|].
  unfold bind. destruct (body w) as [[y|e| |] w1]; simpl;
    [apply IH|discriminate..].
Qed.

(** X17.  The loop until interrupted ends normally in one way only:
    whenever it returns, the last thing it did was to print that the
    user interrupted it. *)
Theorem unbounded_loop_returns_only_interrupted fuel a w :
  given_int (repeat a) = None ->
  fst (loop_handler fuel a w) = Ret tt ->
  exists evs,
    trace (snd (loop_handler fuel a w)) = trace w ++ evs ++ [EPrint MsgLoopInterrupted].
Proof.
  intros Hn. unfold loop_handler. rewrite Hn.
  set (w1 := emit (EPrint MsgLoopingUntil) w).
  rewrite (bind_ok (print MsgLoopingUntil) _ w tt w1 eq_refl).
  unfold try_except.
  pose proof (while_true_never_returns fuel (call_exchange a ;; sleep 5) w1) as Hnr.
  assert (Ho : orderly a (while_true fuel (call_exchange a ;; sleep 5))).
  { apply orderly_while_true.
    apply orderly_bind; [apply orderly_call_exchange|]. intros _.
    apply orderly_sleep. }
  destruct (Ho w1) as (evs & Ht & _).
  destruct (while_true fuel (call_exchange a ;; sleep 5) w1) as [[x|e| |] w2];
    simpl in *; try discriminate.
  - now destruct (Hnr x).
  - destruct e; simpl; try discriminate. intros _.
    exists (EPrint MsgLoopingUntil :: evs). rewrite Ht. subst w1. simpl.
    now rewrite <- !app_assoc.
Qed.

(** A property that every round carries one step further holds at the
    end of the bounded loop. *)
Lemma for_range_invariant (body : Z -> M unit) n :
  forall (P : nat -> world -> Prop) i w,
    P O w ->
    (forall k w1, (k < n)%nat -> P k w1 ->
       exists w2, body (i + Z.of_nat k) w1 = (Ret tt, w2) /\ P (S k) w2) ->
    exists w', for_range n i body w = (Ret tt, w') /\ P n w'.
Proof.
  induction n as [|n IH]; intros P i w H0 Hstep.
  - exists w. split; [reflexivity|exact H0].
  - destruct (Hstep O w) as (w2 & Hb & H1); [lia|exact H0|].
    rewrite Z.add_0_r in Hb.
    destruct (IH (fun k => P (S k)) (i + 1) w2 H1) as (w' & Hf & Hn).
    { intros k w1 Hk HP.
      destruct (Hstep (S k) w1) as (w3 & Hb3 & H3); [lia|exact HP|].
      exists w3. split; [|exact H3].
      now replace (i + 1 + Z.of_nat k) with (i + Z.of_nat (S k)) by lia. }
    exists w'. split; [|exact Hn].
    simpl for_range. now rewrite (bind_ok (body i) _ w tt w2 Hb).
Qed.

Lemma body_round a n0 i w :
  completes (created w) = true ->
  sleep_sigint E (slept w) = false ->
  exists o evs ms,
    exchange (port a) (query a) (remote_ip a) (remote_port a) a
             (created w) (clock w) (Ret o) evs ms true
    /\ (print (MsgRequest (i + 1) n0) ;; call_exchange a ;; sleep 5) w
       = (Ret tt, after_round (emit (EPrint (MsgRequest (i + 1) n0)) w) evs ms).
Proof.
  intros Hc Hs.
  set (w1 := emit (EPrint (MsgRequest (i + 1) n0)) w).
  destruct (round_completes_full a w1 Hc Hs) as (o & evs & ms & Hx & Hrun).
  exists o, evs, ms. split; [exact Hx|].
  now rewrite (bind_ok (print (MsgRequest (i + 1) n0)) _ w tt w1 eq_refl).
Qed.

Lemma bounded_loop_invariant fuel a n w (P : nat -> world -> Prop) :
  repeat a = Some n ->
  n <> 0 ->
  P O (emit (EPrint (MsgLoopingTimes n)) w) ->
  (forall k w1 i, (k < Z.to_nat n)%nat -> P k w1 ->
     exists w2,
       (print (MsgRequest (i + 1) n) ;; call_exchange a ;; sleep 5) w1 = (Ret tt, w2)
       /\ P (S k) w2) ->
  exists w', loop_handler fuel a w = (Ret tt, w') /\ P (Z.to_nat n) w'.
Proof.
  intros Hn Hz H0 Hstep.
  unfold loop_handler. rewrite Hn. simpl.
  apply Z.eqb_neq in Hz. rewrite Hz.
  set (w1 := emit (EPrint (MsgLoopingTimes n)) w).
  rewrite (bind_ok (print (MsgLoopingTimes n)) _ w tt w1 eq_refl).
  apply for_range_invariant; [exact H0|].
  intros k w2 Hk HP. now apply Hstep.
Qed.


Lemma exchange_quiet lport command ip rport cfg s t0 o evs ms closed :
  exchange lport command ip rport cfg s t0 (Ret o) evs ms closed ->
  quiet_for 2000 (arriving E s) = true ->
  o = Timeout /\ ms = 2000.
Proof.
  intros Hx Hq. inversion Hx; subst; auto;
    match goal with
    | Ha : arriving E s = _ |- _ => rewrite Ha in Hq; simpl in Hq
    end; apply Z.leb_le in Hq; lia.
Qed.



(** X21.  With [-c], the process id that the runtime prints is the one
    whose namespace is entered: as root the run begins with the lookup,
    its report, and the entry into the namespace of that very process. *)
Theorem resolved_pid_is_entered fuel a w name out pid fd :
  given_str (compose_name a) = Some name ->
  docker_inspect E name = Completed out ->
  int_of_str (str_strip out) = Some pid ->
  pid <> 0 ->
  geteuid E = 0 ->
  open_netns E pid = inr fd ->
  fst (libc_setns E fd 0) = 0 ->
  exists rest,
    trace (snd (main fuel a w)) =
    trace w
    ++ [ERunDocker name; EPrint (MsgResolved name pid);
        EOpenNetns pid fd; ESetns fd; ECloseFd fd; EPrint (MsgEntered pid)]
    ++ rest.
Proof.
  intros Hc Hd Hi Hp He Ho Hs.
  set (w0 := emit (EPrint (MsgResolved name pid)) (emit (ERunDocker name) w)).
  set (w1 := emit (EPrint (MsgEntered pid))
               (emit (ECloseFd fd) (emit (ESetns fd) (emit (EOpenNetns pid fd) w0)))).
  set (a1 := set_ns_pid a pid).
  assert (Ht : exists rest,
             trace (snd ((if loop a1
                          then loop_handler fuel a1
                          else
                            print (MsgSending (query a1) (remote_ip a1)
                                              (remote_port a1) (port a1)) ;;
                            call_exchange a1) w1))
             = trace w1 ++ rest).
  { destruct (loop a1).
    - destruct (orderly_loop_handler fuel a1 w1) as (evs & Ht & _). eauto.
    - assert (Ho' : orderly a1
                      (print (MsgSending (query a1) (remote_ip a1)
                                         (remote_port a1) (port a1)) ;;
                       call_exchange a1)).
      { apply orderly_bind; [now apply orderly_print|]. intros _.
        apply orderly_call_exchange. }
      destruct (Ho' w1) as (evs & Ht & _). eauto. }
  destruct Ht as (rest & Ht). exists rest.
  unfold main. rewrite Hc.
  rewrite (bind_ok (pid0 <- get_pid_from_compose_name name ;; ret (set_ns_pid a pid0))
                   _ w a1 w0).
  2:{ now rewrite (bind_ok (get_pid_from_compose_name name) _ w pid w0
                     (get_pid_resolved name out pid w Hd Hi)). }
  change (ns_pid a1) with (Some pid). simpl given_int.
  apply Z.eqb_neq in Hp. rewrite Hp.
  rewrite (bind_ok (enter_netns pid) _ w0 tt w1
             (enter_netns_as_root pid fd w0 He Ho Hs)).
  rewrite Ht. subst w1 w0. simpl. now rewrite <- !app_assoc.
Qed.

(** ** Properties of every trace of every session *)

Section Sessionwide.

(** A property of what is added to the trace: it holds of nothing added,
    is kept by putting additions end to end, holds of every single event
    that is not a write to a file, and of what an exchange adds under
    the arguments of the session, whatever process id they carry. *)
Variable a : args.
Variable P : list event -> Prop.
Hypothesis P_nil : P [].
Hypothesis P_app : forall l1 l2, P l1 -> P l2 -> P (l1 ++ l2).
Hypothesis P_event : forall e, appended [e] = [] -> P [e].
Hypothesis P_exchange :
  forall cfg s t0 r evs ms closed,
    cfg = a \/ (exists pid, cfg = set_ns_pid a pid) ->
    exchange (port cfg) (query cfg) (remote_ip cfg) (remote_port cfg) cfg
             s t0 r evs ms closed ->
    P evs.

Definition adds {A} (m : M A) : Prop :=
  forall w, exists evs, trace (snd (m w)) = trace w ++ evs /\ P evs.

Lemma adds_nothing {A} (r : result A) : adds (fun w => (r, w)).
Proof. intros w. exists []. simpl. now rewrite app_nil_r. Qed.

Lemma adds_bind {A B} (m : M A) (k : A -> M B) :
  adds m -> (forall x, adds (k x)) -> adds (bind m k).
Proof.
  intros Hm Hk w. destruct (Hm w) as (evs1 & Ht1 & Hs1).
  unfold bind. destruct (m w) as [[x|e| |] w1]; simpl in *; eauto.
  destruct (Hk x w1) as (evs2 & Ht2 & Hs2).
  exists (evs1 ++ evs2). rewrite Ht2, Ht1, app_assoc. auto.
Qed.

Lemma adds_try_except {A} (m : M A) handler :
  adds m ->
  (forall e h, handler e = Some h -> adds h) ->
  adds (try_except m handler).
Proof.
  intros Hm Hh w. destruct (Hm w) as (evs1 & Ht1 & Hs1).
  unfold try_except. destruct (m w) as [[x|e| |] w1]; simpl in *; eauto.
  destruct (handler e) as [h|] eqn:He; simpl; eauto.
  destruct (Hh e h He w1) as (evs2 & Ht2 & Hs2).
  exists (evs1 ++ evs2). rewrite Ht2, Ht1, app_assoc. auto.
Qed.

Lemma adds_print m : adds (print m).
Proof. intros w. exists [EPrint m]. split; [reflexivity|]. now apply P_event. Qed.

Lemma adds_sleep d : adds (sleep d).
Proof.
  intros w. exists [ESleep d]. unfold sleep.
  destruct (sleep_sigint E (slept w)); simpl; auto.
Qed.

Lemma adds_call_exchange cfg :
  cfg = a \/ (exists pid, cfg = set_ns_pid a pid) ->
  adds (call_exchange cfg).
Proof.
  intros Hcfg w.
  destruct (call_exchange_exchange cfg w) as (r & evs & ms & closed & Hx & ->).
  exists evs. split; [reflexivity|]. eapply P_exchange; eauto.
Qed.

Lemma adds_for_range body n :
  (forall i, adds (body i)) -> forall i, adds (for_range n i body).
Proof.
  intros Hb. induction n as [|n IH]; intros i; simpl.
  - apply (adds_nothing (Ret tt)).
  - apply adds_bind; auto.
Qed.

Lemma adds_while_true body fuel : adds body -> adds (while_true fuel body).
Proof.
  intros Hb. induction fuel as [|fuel IH]; simpl.
  - apply (adds_nothing OutOfFuel).
  - apply adds_bind; auto.
Qed.

Lemma adds_loop_handler fuel cfg :
  cfg = a \/ (exists pid, cfg = set_ns_pid a pid) ->
  adds (loop_handler fuel cfg).
Proof.
  intros Hcfg. unfold loop_handler. destruct (given_int (repeat cfg)) as [n|].
  - apply adds_bind; [apply adds_print|]. intros _.
    apply adds_for_range. intros i.
    apply adds_bind; [apply adds_print|]. intros _.
    apply adds_bind; [now apply adds_call_exchange|]. intros _.
    apply adds_sleep.
  - apply adds_bind; [apply adds_print|]. intros _.
    apply adds_try_except.
    + apply adds_while_true.
      apply adds_bind; [now apply adds_call_exchange|]. intros _.
      apply adds_sleep.
    + intros e h He. destruct e; try discriminate.
      inversion He; subst. apply adds_print.
Qed.

Lemma adds_enter_netns pid : adds (enter_netns pid).
Proof.
  unfold enter_netns.
  apply adds_bind; [apply (adds_nothing (Ret (geteuid E)))|]. intros euid.
  apply adds_bind.
  { unfold when. destruct (negb (euid =? 0)); [|apply (adds_nothing (Ret tt))].
    apply adds_bind; [apply adds_print|]. intros _.
    apply (adds_nothing (Raise (SystemExit 1))). }
  intros _. apply adds_try_except.
  - apply adds_bind.
    { intros w. unfold os_open_netns.
      destruct (open_netns E pid) as [errno|fd]; simpl.
      - exists []. now rewrite app_nil_r.
      - exists [EOpenNetns pid fd]. simpl. auto. }
    intros fd. apply adds_bind.
    { unfold setns. apply adds_bind.
      - intros w. unfold LIBC_setns. simpl.
        destruct (fst (libc_setns E fd 0) =? 0); simpl.
        + exists [ESetns fd]. simpl. auto.
        + exists []. now rewrite app_nil_r.
      - intros r. destruct (negb (fst r =? 0));
          [apply (adds_nothing (Raise (OSError (snd r))))
          |apply (adds_nothing (Ret tt))]. }
    intros _. apply adds_bind.
    { intros w. exists [ECloseFd fd]. simpl. auto. }
    intros _. apply adds_print.
  - intros e h He. destruct (is_Exception e); [|discriminate].
    inversion He; subst.
    apply adds_bind; [apply adds_print|]. intros _.
    apply (adds_nothing (Raise (SystemExit 1))).
Qed.

Lemma adds_get_pid name : adds (get_pid_from_compose_name name).
Proof.
  unfold get_pid_from_compose_name. apply adds_try_except.
  - apply adds_bind.
    { intros w. unfold run_docker_inspect.
      destruct (docker_inspect E name); simpl.
      - exists [ERunDocker name]. simpl. auto.
      - exists [ERunDocker name]. simpl. auto.
      - exists []. now rewrite app_nil_r. }
    intros out. apply adds_bind.
    { unfold py_int. destruct (int_of_str (str_strip out)) as [n|];
        [apply (adds_nothing (Ret n))|apply (adds_nothing (Raise ValueError))]. }
    intros pid. apply adds_bind; [apply adds_print|]. intros _.
    apply (adds_nothing (Ret pid)).
  - intros e h He. destruct e; try discriminate. inversion He; subst.
    apply adds_bind; [apply adds_print|]. intros _.
    apply (adds_nothing (Raise (SystemExit 1))).
Qed.

Lemma adds_tail fuel cfg :
  cfg = a \/ (exists pid, cfg = set_ns_pid a pid) ->
  adds
    (match given_int (ns_pid cfg) with
     | Some pid => enter_netns pid
     | None => ret tt
     end ;;
     if loop cfg
     then loop_handler fuel cfg
     else
       print (MsgSending (query cfg) (remote_ip cfg) (remote_port cfg) (port cfg)) ;;
       call_exchange cfg).
Proof.
  intros Hcfg. apply adds_bind.
  { destruct (given_int (ns_pid cfg));
      [apply adds_enter_netns|apply (adds_nothing (Ret tt))]. }
  intros _. destruct (loop cfg); [now apply adds_loop_handler|].
  apply adds_bind; [apply adds_print|]. intros _.
  now apply adds_call_exchange.
Qed.

Lemma adds_main fuel : adds (main fuel a).
Proof.
  unfold main. destruct (given_str (compose_name a)) as [name|].
  - intros w.
    destruct (adds_get_pid name w) as (evs1 & Ht1 & Hs1).
    unfold bind at 1 2.
    destruct (get_pid_from_compose_name name w) as [[pid|e| |] w1];
      simpl in *; eauto.
    destruct (adds_tail fuel (set_ns_pid a pid) (or_intror (ex_intro _ pid eq_refl)) w1)
      as (evs2 & Ht2 & Hs2).
    exists (evs1 ++ evs2). split; [|now apply P_app].
    now rewrite app_assoc, <- Ht1, <- Ht2.
  - intros w. rewrite (bind_ok (ret a) _ w a w eq_refl).
    apply adds_tail. now left.
Qed.

End Sessionwide.

Lemma calls_skeleton_exchange lport command ip rport cfg s t0 r evs ms closed :
  exchange lport command ip rport cfg s t0 r evs ms closed ->
  (List.length (appended evs) <= calls (skeleton evs))%nat.
Proof.
  intros Hx. rewrite (skeleton_exchange _ _ _ _ _ _ _ _ _ _ _ Hx).
  rewrite (appended_exchange _ _ _ _ _ _ _ _ _ _ _ Hx).
  unfold calls. simpl. destruct r as [o| | |]; simpl; try lia.
  unfold log_events. destruct (given_str (logfile cfg)); simpl; try lia.
  destruct (admitted (log_on_ cfg) o); simpl; lia.
Qed.


(** X23.  In every session, however it ends, nothing is written to any
    file but the configured log file, and every line written carries the
    command of the session.  With no log file configured nothing is
    written at all. *)
Theorem writes_only_to_logfile fuel a w :
  exists evs,
    trace (snd (main fuel a w)) = trace w ++ evs
    /\ (forall p l, In (p, l) (appended evs) ->
          given_str (logfile a) = Some p /\ line_query l = query a).
Proof.
  apply (adds_main a
           (fun evs => forall p l, In (p, l) (appended evs) ->
                         given_str (logfile a) = Some p /\ line_query l = query a)).
  - intros p l [].
  - intros l1 l2 H1 H2 p l Hin. rewrite appended_app in Hin.
    apply in_app_or in Hin. destruct Hin; eauto.
  - intros e He p l Hin. rewrite He in Hin. destruct Hin.
  - intros cfg s t0 r evs ms closed Hcfg Hx p l Hin.
    rewrite (appended_exchange _ _ _ _ _ _ _ _ _ _ _ Hx) in Hin.
    assert (Hsame : logfile cfg = logfile a /\ query cfg = query a).
    { destruct Hcfg as [->|(pid & ->)]; split; reflexivity. }
    destruct Hsame as [Hlf Hq].
    destruct r as [o| | |]; try (destruct Hin; fail).
    unfold log_events in Hin. rewrite Hlf in Hin.
    destruct (given_str (logfile a)) as [path|]; [|destruct Hin].
    destruct (admitted (log_on_ cfg) o); [|destruct Hin].
    destruct Hin as [Heq|[]]. inversion Heq; subst. split; [reflexivity|].
    rewrite <- Hq. unfold line_of. now destruct (logformat_ cfg).
Qed.

(** ** Sockets over a whole session *)

Lemma socketless_tidy {A} (m : M A) : socketless m -> tidy m.
Proof.
  intros Hm w Hf. destruct (Hm w) as [Ho Hc]. split; [|now left].
  unfold fresh. rewrite Ho, Hc. exact Hf.
Qed.

Lemma socketless_const {A} (r : result A) : socketless (fun w => (r, w)).
Proof. intros w. auto. Qed.

Lemma socketless_bind {A B} (m : M A) (k : A -> M B) :
  socketless m -> (forall x, socketless (k x)) -> socketless (bind m k).
Proof.
  intros Hm Hk w. destruct (Hm w) as [Ho Hc].
  unfold bind. destruct (m w) as [[x|e| |] w1]; simpl in *; auto.
  destruct (Hk x w1) as [Ho' Hc']. split; congruence.
Qed.

Lemma socketless_try_except {A} (m : M A) handler :
  socketless m ->
  (forall e h, handler e = Some h -> socketless h) ->
  socketless (try_except m handler).
Proof.
  intros Hm Hh w. destruct (Hm w) as [Ho Hc].
  unfold try_except. destruct (m w) as [[x|e| |] w1]; simpl in *; auto.
  destruct (handler e) as [h|] eqn:He; simpl; auto.
  destruct (Hh e h He w1) as [Ho' Hc']. split; congruence.
Qed.

Lemma socketless_print m : socketless (print m).
Proof. intros w. auto. Qed.

Lemma socketless_sleep d : socketless (sleep d).
Proof.
  intros w. unfold sleep. destruct (sleep_sigint E (slept w)); auto.
Qed.

Lemma socketless_enter_netns pid : socketless (enter_netns pid).
Proof.
  unfold enter_netns.
  apply socketless_bind; [apply (socketless_const (Ret (geteuid E)))|]. intros euid.
  apply socketless_bind.
  { unfold when. destruct (negb (euid =? 0)); [|apply (socketless_const (Ret tt))].
    apply socketless_bind; [apply socketless_print|]. intros _.
    apply (socketless_const (Raise (SystemExit 1))). }
  intros _. apply socketless_try_except.
  - apply socketless_bind.
    { intros w. unfold os_open_netns.
      destruct (open_netns E pid); simpl; auto. }
    intros fd. apply socketless_bind.
    { unfold setns. apply socketless_bind.
      - intros w. unfold LIBC_setns. simpl.
        destruct (fst (libc_setns E fd 0) =? 0); simpl; auto.
      - intros r. destruct (negb (fst r =? 0));
          [apply (socketless_const (Raise (OSError (snd r))))
          |apply (socketless_const (Ret tt))]. }
    intros _. apply socketless_bind; [intros w; simpl; auto|].
    intros _. apply socketless_print.
  - intros e h He. destruct (is_Exception e); [|discriminate].
    inversion He; subst.
    apply socketless_bind; [apply socketless_print|]. intros _.
    apply (socketless_const (Raise (SystemExit 1))).
Qed.

Lemma socketless_get_pid name : socketless (get_pid_from_compose_name name).
Proof.
  unfold get_pid_from_compose_name. apply socketless_try_except.
  - apply socketless_bind.
    { intros w. unfold run_docker_inspect.
      destruct (docker_inspect E name); simpl; auto. }
    intros out. apply socketless_bind.
    { unfold py_int. destruct (int_of_str (str_strip out)) as [n|];
        [apply (socketless_const (Ret n))
        |apply (socketless_const (Raise ValueError))]. }
    intros pid. apply socketless_bind; [apply socketless_print|]. intros _.
    apply (socketless_const (Ret pid)).
  - intros e h He. destruct e; try discriminate. inversion He; subst.
    apply socketless_bind; [apply socketless_print|]. intros _.
    apply (socketless_const (Raise (SystemExit 1))).
Qed.

Lemma tidy_bind {A B} (m : M A) (k : A -> M B) :
  tidy m -> (forall x, tidy (k x)) -> tidy (bind m k).
Proof.
  intros Hm Hk w Hf. destruct (Hm w Hf) as [Hf1 Ho1].
  unfold bind. destruct (m w) as [[x|e| |] w1] eqn:Hr; simpl in *.
  - destruct Ho1 as [Ho1|(errno & s & Hx & _)]; [|discriminate].
    destruct (Hk x w1 Hf1) as [Hf2 Ho2]. split; [exact Hf2|].
    rewrite <- Ho1. exact Ho2.
  - split; [assumption|].
    destruct Ho1 as [Ho1|(errno & s & Hx & Hb & Hop)]; [now left|].
    right. exists errno, s. inversion Hx; subst. auto.
  - split; [assumption|].
    destruct Ho1 as [Ho1|(errno & s & Hx & _)]; [now left|discriminate].
  - split; [assumption|].
    destruct Ho1 as [Ho1|(errno & s & Hx & _)]; [now left|discriminate].
Qed.

Lemma tidy_try_except {A} (m : M A) handler :
  tidy m ->
  (forall errno, handler (OSError errno) = None) ->
  (forall e h, handler e = Some h -> tidy h) ->
  tidy (try_except m handler).
Proof.
  intros Hm Hos Hh w Hf. destruct (Hm w Hf) as [Hf1 Ho1].
  unfold try_except. destruct (m w) as [[x|e| |] w1] eqn:Hr; simpl in *;
    try (split; assumption).
  destruct (handler e) as [h|] eqn:He; simpl; [|split; assumption].
  destruct Ho1 as [Ho1|(errno & s & Hx & _)].
  - destruct (Hh e h He w1 Hf1) as [Hf2 Ho2]. split; [exact Hf2|].
    rewrite <- Ho1. exact Ho2.
  - inversion Hx; subst. rewrite Hos in He. discriminate.
Qed.

Lemma tidy_call_exchange cfg : tidy (call_exchange cfg).
Proof.
  intros w Hf.
  destruct (call_exchange_exchange cfg w) as (r & evs & ms & closed & Hx & ->).
  destruct (exchange_closes _ _ _ _ _ _ _ _ _ _ _ Hx)
    as [(-> & errno & He)|(-> & mid & ->)]; unfold fresh; simpl.
  - split.
    + intros k [<-|Hk]; simpl; [lia|]. specialize (Hf k Hk). lia.
    + right. exists errno, (created w).
      inversion Hx; subst; try congruence.
      repeat split; try assumption. simpl. congruence.
  - rewrite (drop_socket_absent _ _ Hf). split; [|now left].
    intros k Hk. specialize (Hf k Hk). lia.
Qed.

Lemma tidy_for_range body n :
  (forall i, tidy (body i)) -> forall i, tidy (for_range n i body).
Proof.
  intros Hb. induction n as [|n IH]; intros i; simpl.
  - apply socketless_tidy, (socketless_const (Ret tt)).
  - apply tidy_bind; auto.
Qed.

Lemma tidy_while_true body fuel : tidy body -> tidy (while_true fuel body).
Proof.
  intros Hb. induction fuel as [|fuel IH]; simpl.
  - apply socketless_tidy, (socketless_const OutOfFuel).
  - apply tidy_bind; auto.
Qed.

Lemma tidy_round cfg : tidy (call_exchange cfg ;; sleep 5).
Proof.
  apply tidy_bind; [apply tidy_call_exchange|]. intros _.
  apply socketless_tidy, socketless_sleep.
Qed.

Lemma tidy_loop_handler fuel cfg : tidy (loop_handler fuel cfg).
Proof.
  unfold loop_handler. destruct (given_int (repeat cfg)) as [n|].
  - apply tidy_bind; [apply socketless_tidy, socketless_print|]. intros _.
    apply tidy_for_range. intros i.
    apply tidy_bind; [apply socketless_tidy, socketless_print|]. intros _.
    apply tidy_round.
  - apply tidy_bind; [apply socketless_tidy, socketless_print|]. intros _.
    apply tidy_try_except.
    + apply tidy_while_true, tidy_round.
    + reflexivity.
    + intros e h He. destruct e; try discriminate.
      inversion He; subst. apply socketless_tidy, socketless_print.
Qed.

(** X24.  Over a whole session, however it ends, sockets do not pile up:
    at the end the open sockets are those of the beginning, unless the
    run ended on the error of a bind, and then the one socket of that
    bind is the only one left open. *)
Theorem session_leaves_at_most_one_socket fuel a w :
  fresh w ->
  fresh (snd (main fuel a w))
  /\ (open_sockets (snd (main fuel a w)) = open_sockets w
      \/ exists errno s,
           fst (main fuel a w) = Raise (OSError errno)
           /\ bind_errno E s = Some errno
           /\ open_sockets (snd (main fuel a w))
              = {| sock_id := s; sock_timeout := None |} :: open_sockets w).
Proof.
  revert w. change (tidy (main fuel a)).
  unfold main. apply tidy_bind.
  - apply socketless_tidy.
    destruct (given_str (compose_name a)) as [name|].
    + apply socketless_bind; [apply socketless_get_pid|]. intros pid.
      apply (socketless_const (Ret (set_ns_pid a pid))).
    + apply (socketless_const (Ret a)).
  - intros a1. apply tidy_bind.
    + apply socketless_tidy.
      destruct (given_int (ns_pid a1));
        [apply socketless_enter_netns|apply (socketless_const (Ret tt))].
    + intros _. destruct (loop a1); [apply tidy_loop_handler|].
      apply tidy_bind; [apply socketless_tidy, socketless_print|]. intros _.
      apply tidy_call_exchange.
Qed.

End Program.

Arguments RespJson {J} j.
Arguments RespText {J} t.
Arguments CsvLine {J} ts q r.
Arguments JsonLine {J} ts q r.
Arguments MsgMustBeRoot {J}.
Arguments MsgEntered {J} pid.
Arguments MsgNsFailed {J} e.
Arguments MsgResolved {J} name pid.
Arguments MsgCouldNotResolve {J} name stderr.
Arguments MsgAnswerFrom {J} ip rport.
Arguments MsgPretty {J} j.
Arguments MsgNotJson {J}.
Arguments MsgRaw {J} t.
Arguments MsgTimeout {J}.
Arguments MsgLoopingTimes {J} n.
Arguments MsgRequest {J} i n.
Arguments MsgLoopingUntil {J}.
Arguments MsgLoopInterrupted {J}.
Arguments MsgSending {J} q ip rport lport.
Arguments EPrint {J} m.
Arguments ESocket {J} s.
Arguments EBind {J} s lport.
Arguments ESetTimeout {J} s ms.
Arguments ESendTo {J} s payload ip rport.
Arguments ERecvFrom {J} s data.
Arguments EClose {J} s.
Arguments ESleep {J} seconds.
Arguments EAppend {J} path line.
Arguments ERunDocker {J} name.
Arguments EOpenNetns {J} pid fd.
Arguments ESetns {J} fd.
Arguments ECloseFd {J} fd.
Arguments ETraceback {J} e.
Arguments Structured {J} j.
Arguments RawText {J} t.
Arguments Timeout {J}.
Arguments clock {J} w.
Arguments created {J} w.
Arguments slept {J} w.
Arguments open_sockets {J} w.
Arguments trace {J} w.
Arguments initial {J} t0.
Arguments appended {J} t.
Arguments skeleton {J} t.
Arguments is_open {J} s w.
Arguments synced {J} cfg evs.
Arguments send_and_receive {J} json_loads E listen_port command remote_ip remote_port config _.
Arguments loop_handler {J} json_loads E fuel a _.
Arguments main {J} json_loads str_strip int_of_str E fuel a0 _.
Arguments run_script {J} json_loads str_strip int_of_str E fuel a w.
Arguments get_pid_from_compose_name {J} str_strip int_of_str E compose_name _.

Local Open Scope string_scope.

(** ** The theorems at work *)

(** C1, the claim as it was stated: under the filter [fail] a reply that
    is not JSON, a Success(raw-text-reply), is written to the log. *)
Lemma fail_filter_logs_raw_reply :
  let cfg := with_log default_args "udp_log.json" Fail in
  let run := send_and_receive loads_literal (answering "hello")
               44440 "none" "127.0.0.1" 44444 cfg (initial 0) in
  log_on_ cfg = Fail
  /\ fst run = Ret (RawText "hello"%string)
  /\ appended (trace (snd run))
     = [("udp_log.json"%string,
         JsonLine (TsIso 10) "none" (RespText "hello"%string))].
Proof. vm_compute. repeat split. Qed.

Lemma log_filter_policy_witness :
  let cfg := with_log default_args "udp_log.json" Success in
  let run := send_and_receive loads_literal nobody
               44440 "none" "127.0.0.1" 44444 cfg (initial 0) in
  fst run = Ret Timeout
  /\ appended (trace (snd run)) = appended (trace (initial (J:=literal) 0)).
Proof.
  intros cfg run. split; [reflexivity|].
  apply (proj1 (log_filter_policy literal loads_literal nobody
                  44440 "none" "127.0.0.1" 44444 cfg (initial 0)
                  (fst run) (snd run) eq_refl));
    reflexivity.
Defined.




(** A trace that shows an outcome and closes the socket without the
    line the configuration asks for is not [synced]. *)
Lemma dropped_line_not_synced :
  ~ synced (J:=literal) (with_log default_args "udp_log.json" All)
      [EPrint MsgTimeout; EClose 0%nat].
Proof. simpl. intros [H _]. discriminate H. Qed.










Lemma undecodable_reply_escapes_witness :
  let run := send_and_receive loads_literal answering_ff
               44440 "none" "127.0.0.1" 44444
               (with_log default_args "udp_log.json" All) (initial 0) in
  decode [xff] = None
  /\ fst run = Raise UnicodeDecodeError
  /\ appended (trace (snd run)) = appended (trace (initial (J:=literal) 0)).
Proof.
  intros run. split; [reflexivity|].
  destruct (undecodable_reply_escapes literal loads_literal answering_ff
              44440 "none" "127.0.0.1" 44444
              (with_log default_args "udp_log.json" All) (initial 0)
              10 [xff] "127.0.0.1" 44444
              eq_refl eq_refl eq_refl eq_refl eq_refl) as (Hr & _ & Ha).
  split; [exact Hr|exact Ha].
Defined.

(** ** Further examples *)

Lemma enter_netns_as_root_witness :
  enter_netns literal (as_root (0, 0)) 4242 (initial 0)
  = (Ret tt,
     emit literal (EPrint (MsgEntered 4242))
       (emit literal (ECloseFd 3)
          (emit literal (ESetns 3) (emit literal (EOpenNetns 4242 3) (initial 0))))).
Proof.
  apply (enter_netns_as_root literal (as_root (0, 0)) 4242 3 (initial 0));
    reflexivity.
Defined.

Lemma enter_netns_setns_fails_witness :
  enter_netns literal (as_root (-1, 1)) 4242 (initial 0)
  = (Raise (SystemExit 1),
     emit literal (EPrint (MsgNsFailed (OSError 1)))
       (emit literal (EOpenNetns 4242 3) (initial 0))).
Proof.
  apply (enter_netns_setns_fails literal (as_root (-1, 1)) 4242 3 (initial 0));
    try reflexivity. discriminate.
Defined.

Lemma docker_failure_exits_witness :
  let E := with_docker (Failed 1 "Error: No such object: web") in
  let a := with_netns default_args None (Some "web") in
  run_script loads_literal strip_ascii int_decimal E 0 a (initial 0)
  = (Exited 1,
     emit literal (EPrint (MsgCouldNotResolve "web" "Error: No such object: web"))
       (emit literal (ERunDocker "web") (initial 0))).
Proof.
  intros E a.
  apply (docker_failure_exits literal loads_literal strip_ascii int_decimal E 0 a
           (initial 0) "web" 1 "Error: No such object: web"); reflexivity.
Defined.

Lemma docker_not_started_uncaught_witness :
  let E := with_docker (NotStarted 2) in
  let a := with_netns default_args None (Some "web") in
  run_script loads_literal strip_ascii int_decimal E 0 a (initial 0)
  = (Exited 1, emit literal (ETraceback (OSError 2)) (initial 0)).
Proof.
  intros E a.
  apply (docker_not_started_uncaught literal loads_literal strip_ascii int_decimal
           E 0 a (initial 0) "web" 2); reflexivity.
Defined.

Lemma compose_name_overrides_ns_pid_witness :
  let a := with_netns default_args (Some 7) (Some "web") in
  main loads_literal strip_ascii int_decimal nobody 0
       (with_netns a (Some 9) (compose_name a)) (initial 0)
  = main loads_literal strip_ascii int_decimal nobody 0 a (initial 0).
Proof.
  intros a.
  apply (compose_name_overrides_ns_pid literal loads_literal strip_ascii int_decimal
           nobody 0 a (initial 0) "web" (Some 9)).
  reflexivity.
Defined.


Lemma exchange_leaves_no_socket_witness :
  let run := send_and_receive loads_literal (answering "hello")
               44440 "none" "127.0.0.1" 44444 default_args (initial 0) in
  open_sockets (snd run) = open_sockets (initial (J:=literal) 0).
Proof.
  intros run.
  apply (proj2 (exchange_leaves_no_socket literal loads_literal (answering "hello")
                  44440 "none" "127.0.0.1" 44444 default_args (initial 0)
                  (fst run) (snd run) (fun k (H : In k []) => match H with end)
                  eq_refl)).
  reflexivity.
Defined.

Lemma raw_text_fits_buffer_witness :
  Z.of_nat (List.length (encode "hello")) <= 4096.
Proof.
  apply (raw_text_fits_buffer literal loads_literal (answering "hello")
           44440 "none" "127.0.0.1" 44444 default_args (initial 0) "hello"
           (snd (send_and_receive loads_literal (answering "hello")
                   44440 "none" "127.0.0.1" 44444 default_args (initial 0)))).
  reflexivity.
Defined.


Lemma namespace_entered_first_witness :
  let a := with_netns default_args (Some 4242) None in
  exists rest,
    trace (snd (main loads_literal strip_ascii int_decimal (as_root (0, 0)) 0 a
                     (initial 0)))
    = (trace (initial 0)
         ++ [EOpenNetns 4242 3; ESetns 3; ECloseFd 3; EPrint (MsgEntered 4242)]
         ++ rest)%list.
Proof.
  intros a.
  apply (namespace_entered_first literal loads_literal strip_ascii int_decimal
           (as_root (0, 0)) 0 a (initial 0) 4242 3); reflexivity.
Defined.





Lemma unbounded_loop_returns_only_interrupted_witness :
  let a := with_loop default_args None in
  exists evs,
    trace (snd (loop_handler loads_literal (nobody_until 1) 5 a (initial 0)))
    = (trace (initial 0) ++ evs ++ [EPrint MsgLoopInterrupted])%list.
Proof.
  intros a.
  apply (unbounded_loop_returns_only_interrupted literal loads_literal
           (nobody_until 1) 5 a (initial 0)); reflexivity.
Defined.




Lemma resolved_pid_is_entered_witness :
  let a := with_netns default_args None (Some "web") in
  exists rest,
    trace (snd (main loads_literal strip_ascii int_decimal (as_root (0, 0)) 0 a
                     (initial 0)))
    = (trace (initial 0)
         ++ [ERunDocker "web"; EPrint (MsgResolved "web" 4242);
             EOpenNetns 4242 3; ESetns 3; ECloseFd 3; EPrint (MsgEntered 4242)]
         ++ rest)%list.
Proof.
  intros a.
  apply (resolved_pid_is_entered literal loads_literal strip_ascii int_decimal
           (as_root (0, 0)) 0 a (initial 0) "web" "4242" 4242 3);
    try reflexivity. discriminate.
Defined.

Lemma session_leaves_at_most_one_socket_witness :
  let a := with_loop default_args (Some 3) in
  let run := main loads_literal strip_ascii int_decimal
               (second_round (Some 98) Silence) 0 a (initial 0) in
  fst run = Raise (OSError 98)
  /\ (open_sockets (snd run) = open_sockets (initial (J:=literal) 0)
      \/ exists errno s,
           fst run = Raise (OSError errno)
           /\ bind_errno (second_round (Some 98) Silence) s = Some errno
           /\ open_sockets (snd run)
              = ({| sock_id := s; sock_timeout := None |}
                   :: open_sockets (initial (J:=literal) 0))%list).
Proof.
  intros a run. split; [reflexivity|].
  apply (session_leaves_at_most_one_socket literal loads_literal strip_ascii
           int_decimal (second_round (Some 98) Silence) 0 a (initial 0)).
  intros k [].
Defined.
